(** * Verification of the protocol orchestration core of the OPC-UA
      diagnostic tool (denginks-opcua-diagnostic-tool).

    Shallow embedding of:
    - [network/diagnostics.rs]: [parse_user_input], [ParsedInput::to_url]
      and the four-step [run_diagnostic] pipeline;
    - [opcua/crawler.rs]: [Crawler::crawl] / [crawl_recursive];
    - [opcua/subscription.rs]: [MonitoredData::update], [variant_to_f64]
      and [SubscriptionState];
    - [opcua/subscription_manager.rs]: [request_add_to_watchlist];
    - [opcua/client.rs]: [OpcUaClient::is_connected].

    A Rust [&str] is modelled as the list of its characters (code points
    below 256, as [ascii]); a [NodeId] is modelled by its display string,
    which is also what the crawler stores in its visited set. *)

From Stdlib Require Import Ascii.
From Stdlib Require String.
From stdpp Require Import base list gmap strings.

Local Open Scope char_scope.
Local Set Warnings "-register-all -abstract-large-number".

(* ------------------------------------------------------------------ *)
(** ** Rust string primitives used by [parse_user_input] *)
(* ------------------------------------------------------------------ *)

Module RStr.

Definition str := list ascii.

Definition lit (s : string) : str := String.list_ascii_of_string s.

(** [char::is_whitespace] restricted to code points below 256. *)
Definition is_whitespace (c : ascii) : bool :=
  match nat_of_ascii c with
  | 9 | 10 | 11 | 12 | 13 | 32 | 133 | 160 => true
  | _ => false
  end.

Fixpoint trim_start (s : str) : str :=
  match s with
  | [] => []
  | c :: s' => if is_whitespace c then trim_start s' else s
  end.

Definition trim_end (s : str) : str := rev (trim_start (rev s)).

(** [str::trim] *)
Definition trim (s : str) : str := trim_end (trim_start s).

(** [str::strip_prefix] *)
Fixpoint strip_prefix (p s : str) : option str :=
  match p, s with
  | [], _ => Some s
  | c :: p', d :: s' => if Ascii.eqb c d then strip_prefix p' s' else None
  | _ :: _, [] => None
  end.

(** [str::contains] for a string pattern *)
Fixpoint contains (pat s : str) : bool :=
  match strip_prefix pat s with
  | Some _ => true
  | None =>
      match s with
      | [] => false
      | _ :: s' => contains pat s'
      end
  end.

(** [s.split(c).next()]: the text before the first [c] (or all of [s]). *)
Fixpoint split_first (c : ascii) (s : str) : str :=
  match s with
  | [] => []
  | d :: s' => if Ascii.eqb c d then [] else d :: split_first c s'
  end.

(** [str::starts_with] for a char *)
Definition starts_with (c : ascii) (s : str) : bool :=
  match s with
  | d :: _ => Ascii.eqb c d
  | [] => false
  end.

(** [str::find] for a char: byte index of the first occurrence. *)
Fixpoint find (c : ascii) (s : str) : option nat :=
  match s with
  | [] => None
  | d :: s' => if Ascii.eqb c d then Some 0 else S <$> find c s'
  end.

(** Split at the last occurrence of [c]: [(before, after)]. *)
Fixpoint split_last (c : ascii) (s : str) : option (str * str) :=
  match s with
  | [] => None
  | d :: s' =>
      match split_last c s' with
      | Some (b, a) => Some (d :: b, a)
      | None => if Ascii.eqb c d then Some ([], s') else None
      end
  end.

(** [s.rsplitn(2, c).collect::<Vec<_>>()] *)
Definition rsplitn2 (c : ascii) (s : str) : list str :=
  match split_last c s with
  | Some (before, after) => [after; before]
  | None => [s]
  end.

Definition digit_value (c : ascii) : option N :=
  let n := nat_of_ascii c in
  if (48 <=? n)%nat && (n <=? 57)%nat then Some (N.of_nat (n - 48)) else None.

(** Digit loop of [u16::from_str_radix] with checked multiply/add. *)
Fixpoint parse_u16_digits (acc : N) (s : str) : option N :=
  match s with
  | [] => Some acc
  | c :: s' =>
      match digit_value c with
      | Some d =>
          let acc' := (acc * 10 + d)%N in
          if (acc' <=? 65535)%N then parse_u16_digits acc' s' else None
      | None => None
      end
  end.

(** [str::parse::<u16>]: an optional ['+'] and at least one digit. *)
Definition parse_u16 (s : str) : option N :=
  match s with
  | [] => None
  | c :: s' =>
      if Ascii.eqb c "+" then
        match s' with
        | [] => None
        | _ => parse_u16_digits 0 s'
        end
      else parse_u16_digits 0 s
  end.

Definition digit_char (d : N) : ascii := ascii_of_nat (48 + N.to_nat d).

Fixpoint dec_digits (fuel : nat) (n : N) (acc : str) : str :=
  match fuel with
  | O => acc
  | S f =>
      let acc' := digit_char (n mod 10)%N :: acc in
      if (n <? 10)%N then acc' else dec_digits f (n / 10)%N acc'
  end.

(** [Display] of a [u16] in decimal (at most five digits). *)
Definition show_u16 (p : N) : str := dec_digits 5 p [].

End RStr.

Import RStr.

(* ------------------------------------------------------------------ *)
(** ** [network/diagnostics.rs]: input parsing *)
(* ------------------------------------------------------------------ *)

Module Diagnostics.

Record ParsedInput := {
  host : str;
  port : option N;
  had_scheme : bool;
  errors : list str;
}.

Definition set_host (h : str) (r : ParsedInput) : ParsedInput :=
  {| host := h; port := port r; had_scheme := had_scheme r; errors := errors r |}.

Definition set_port (p : N) (r : ParsedInput) : ParsedInput :=
  {| host := host r; port := Some p; had_scheme := had_scheme r; errors := errors r |}.

Definition set_had_scheme (r : ParsedInput) : ParsedInput :=
  {| host := host r; port := port r; had_scheme := true; errors := errors r |}.

(** [result.errors.push(e)] *)
Definition push_error (e : str) (r : ParsedInput) : ParsedInput :=
  {| host := host r; port := port r; had_scheme := had_scheme r;
     errors := errors r ++ [e] |}.

(** [ParsedInput::is_valid] *)
Definition is_valid (r : ParsedInput) : bool :=
  match errors r, host r with
  | [], _ :: _ => true
  | _, _ => false
  end.

(** [ParsedInput::to_url]: [format!("opc.tcp://{}:{}", self.host, port)] *)
Definition to_url (r : ParsedInput) (p : N) : str :=
  lit "opc.tcp://" ++ host r ++ [":"] ++ show_u16 p.

(** The host/port part of [parse_user_input], after the scheme and the
    path have been removed. *)
Definition parse_host_port (result : ParsedInput) (host_port : str) : ParsedInput :=
  if starts_with "[" host_port then
    (* IPv6 format: [::1]:port *)
    match find "]" host_port with
    | Some bracket_end =>
        let result := set_host (take (S bracket_end) host_port) result in
        let after_bracket := drop (S bracket_end) host_port in
        match strip_prefix [":"] after_bracket with
        | Some port_str =>
            match parse_u16 port_str with
            | Some p => set_port p result
            | None => push_error (lit "Invalid port: " ++ port_str) result
            end
        | None => result
        end
    | None => push_error (lit "Invalid IPv6 address format") result
    end
  else
    (* IPv4 or hostname *)
    match rsplitn2 ":" host_port with
    | [p0] => set_host p0 result
    | [p0; p1] =>
        match parse_u16 p0 with
        | Some p => set_host p1 (set_port p result)
        | None => set_host host_port result
        end
    | _ => push_error (lit "Invalid host:port format") result
    end.

Definition empty_parsed : ParsedInput :=
  {| host := []; port := None; had_scheme := false; errors := [] |}.

(** [parse_user_input] *)
Definition parse_user_input (input : str) : ParsedInput :=
  let trimmed := trim input in
  let result := empty_parsed in
  match trimmed with
  | [] => push_error (lit "Input cannot be empty") result
  | _ :: _ =>
      let scheme :=
        match strip_prefix (lit "opc.tcp://") trimmed with
        | Some rest => Some (set_had_scheme result, rest)
        | None =>
            if contains (lit "://") trimmed then None else Some (result, trimmed)
        end in
      match scheme with
      | None => push_error (lit "Only opc.tcp:// scheme is supported") result
      | Some (result, without_scheme) =>
          (* Remove path if present *)
          let host_port := split_first "/" without_scheme in
          let result := parse_host_port result host_port in
          match host result with
          | [] => push_error (lit "Host cannot be empty") result
          | _ :: _ => result
          end
      end
  end.

(** Characters allowed in a URI scheme (RFC 3986: letters, digits, [+],
    [-], [.]); used to state which inputs carry a scheme. *)
Definition is_scheme_char (c : ascii) : bool :=
  let n := nat_of_ascii c in
  (((48 <=? n) && (n <=? 57)) || ((65 <=? n) && (n <=? 90))
   || ((97 <=? n) && (n <=? 122)) || (n =? 43) || (n =? 45) || (n =? 46))%nat.

(** Checker, not part of the program: the decimal text of port [p] is
    non-empty, has no whitespace, [':'] or ['/'], and parses back to [p];
    [ports_text_ok n p] checks the ports [p], ..., [p + n - 1]. *)
Definition port_text_ok (p : N) : bool :=
  let ds := show_u16 p in
  negb (Nat.eqb (length ds) 0)
  && forallb (fun c => negb (is_whitespace c) && negb (Ascii.eqb c ":")
                       && negb (Ascii.eqb c "/")) ds
  && match parse_u16 ds with Some q => N.eqb q p | None => false end.

Fixpoint ports_text_ok (n : nat) (p : N) : bool :=
  match n with
  | O => true
  | S n' => port_text_ok p && ports_text_ok n' (N.succ p)
  end.

End Diagnostics.

(* ------------------------------------------------------------------ *)
(** ** [network/diagnostics.rs]: the [run_diagnostic] pipeline *)
(* ------------------------------------------------------------------ *)

(** The network and the endpoint discovery service are inputs of the
    pipeline: [resolve] is [to_socket_addrs] on ["host:4840"] ([None] for
    [Err], otherwise the resolved IP strings in order), [tcp_connect] tells
    whether [TcpStream::connect] on ["host:port"] succeeds within the
    2-second timeout, and [discover_endpoints] is
    [discovery::discover_endpoints] on a URL ([None] for [Err]).
    [is_cancelled i] is the value the cancellation token reports at its
    [i]-th query during the run. Durations, the localized step names and
    detail texts, and the progress channel do not influence the returned
    steps, statuses, ports and endpoints, and are left out. *)
Module Pipeline.

Import Diagnostics.

Inductive StepStatus := Pending | Running | Success | Warning | Failed.

Inductive StepId := ValidateInput | ResolveDns | ScanPorts | DiscoverEndpoints.

Record DiagnosticStep := { step_id : StepId; status : StepStatus }.

Record PortScanResult := { scan_port : N; is_open : bool }.

(** [discovery::EndpointInfo] *)
Record EndpointInfo := {
  security_policy_name : str;
  security_mode : str;
  has_certificate : bool;
  user_tokens : list str;
  endpoint_url : str;
}.

Record DiagnosticResult := {
  steps : list DiagnosticStep;
  overall_success : bool;
  open_ports : list PortScanResult;
  recommended_url : option str;
  endpoints : list EndpointInfo;
}.

Record Net := {
  resolve : str -> option (list str);
  tcp_connect : str -> bool;
  discover_endpoints : str -> option (list EndpointInfo);
}.

Definition OPCUA_COMMON_PORTS : list N := [4840; 4841; 4842; 4843; 48010; 48020; 62541]%N.

(** [ports_to_scan]: the parsed port, or the well-known ports. *)
Definition ports_to_scan (parsed : ParsedInput) : list N :=
  match port parsed with
  | Some p => [p]
  | None => OPCUA_COMMON_PORTS
  end.

(** [DiagnosticResult::new] *)
Definition new_result : DiagnosticResult :=
  {| steps := []; overall_success := false; open_ports := [];
     recommended_url := None; endpoints := [] |}.

(** [result.steps.push(step)] *)
Definition push_step (i : StepId) (s : StepStatus) (r : DiagnosticResult) : DiagnosticResult :=
  {| steps := steps r ++ [{| step_id := i; status := s |}];
     overall_success := overall_success r; open_ports := open_ports r;
     recommended_url := recommended_url r; endpoints := endpoints r |}.

Definition set_open_ports (ps : list PortScanResult) (r : DiagnosticResult) : DiagnosticResult :=
  {| steps := steps r; overall_success := overall_success r; open_ports := ps;
     recommended_url := recommended_url r; endpoints := endpoints r |}.

(** [format!("{}:{}", host, port)] *)
Definition socket_addr (host : str) (p : N) : str := host ++ [":"] ++ show_u16 p.

(** The port scan loop: the token is queried before each attempt; the
    result is the scan list and the next query index. *)
Fixpoint scan_ports (net : Net) (is_cancelled : nat -> bool) (i : nat)
    (host : str) (ports : list N) (acc : list PortScanResult)
    : list PortScanResult * nat :=
  match ports with
  | [] => (acc, i)
  | p :: ps =>
      if is_cancelled i then (acc, S i)
      else
        let open_ := tcp_connect net (socket_addr host p) in
        scan_ports net is_cancelled (S i) host ps
          (acc ++ [{| scan_port := p; is_open := open_ |}])
  end.

Definition open_count (ps : list PortScanResult) : nat :=
  length (filter (fun p => is_open p = true) ps).

(** The endpoint discovery loop over the open ports, in scan order. *)
Fixpoint discover_loop (net : Net) (is_cancelled : nat -> bool) (i : nat)
    (parsed : ParsedInput) (ports : list PortScanResult) (r : DiagnosticResult)
    : DiagnosticResult :=
  match ports with
  | [] => r
  | pr :: ps =>
      if is_cancelled i then r
      else
        let url := to_url parsed (scan_port pr) in
        match discover_endpoints net url with
        | Some ((e :: _) as eps) =>
            {| steps := steps r; overall_success := true; open_ports := open_ports r;
               recommended_url := Some (endpoint_url e); endpoints := eps |}
        | _ => discover_loop net is_cancelled (S i) parsed ps r
        end
  end.

(** [run_diagnostic] *)
Definition run_diagnostic (net : Net) (is_cancelled : nat -> bool) (input : str)
    : DiagnosticResult :=
  let result := new_result in
  let parsed := parse_user_input input in
  if negb (is_valid parsed) then push_step ValidateInput Failed result
  else
  let result := push_step ValidateInput Success result in
  if is_cancelled 0 then result
  else
  match resolve net (host parsed ++ lit ":4840") with
  | Some (ip :: _) =>
      let result := push_step ResolveDns Success result in
      if is_cancelled 1 then result
      else
      let '(scanned, i) := scan_ports net is_cancelled 2 ip (ports_to_scan parsed) [] in
      let result := set_open_ports scanned result in
      if Nat.eqb (open_count (open_ports result)) 0 then
        push_step ScanPorts Failed result
      else
      let result := push_step ScanPorts Success result in
      if is_cancelled i then result
      else
      let result :=
        discover_loop net is_cancelled (S i) parsed
          (filter (fun p => is_open p = true) (open_ports result)) result in
      if overall_success result then push_step DiscoverEndpoints Success result
      else push_step DiscoverEndpoints Warning result
  | Some [] => push_step ResolveDns Failed result
  | None => push_step ResolveDns Failed result
  end.

(** Discovery at the port of [pr] yields no endpoint. *)
Definition no_endpoints (net : Net) (parsed : ParsedInput) (pr : PortScanResult) : Prop :=
  forall es, discover_endpoints net (to_url parsed (scan_port pr)) = Some es -> es = [].

End Pipeline.

(* ------------------------------------------------------------------ *)
(** ** [opcua/crawler.rs] *)
(* ------------------------------------------------------------------ *)

(** The server's address space is an input: [browse n] is [browse_node]
    on the node [n] ([None] for [Err], which the crawler logs and skips).
    Nothing constrains it to be finite or acyclic. *)
Module Crawler.

Inductive NodeClass :=
  Object | Variable' | Method | ObjectType | VariableType
| ReferenceType | DataType | View | Unknown.

(** [browser::BrowsedNode] *)
Record BrowsedNode := {
  node_id : string;
  browse_name : string;
  display_name : string;
  node_class : NodeClass;
  type_definition : option string;
  has_children : bool;
}.

Record CrawlConfig := {
  max_depth : nat;
  max_nodes : nat;
  start_node : string;
}.

(** The mutable part of [Crawler]: [visited] in insertion order and
    [results]. *)
Record CrawlState := {
  visited : list string;
  results : list BrowsedNode;
}.

Section Crawl.

Variable browse : string -> option (list BrowsedNode).
Variable config : CrawlConfig.

Definition mark_visited (n : string) (st : CrawlState) : CrawlState :=
  {| visited := visited st ++ [n]; results := results st |}.

Definition push_result (c : BrowsedNode) (st : CrawlState) : CrawlState :=
  {| visited := visited st; results := results st ++ [c] |}.

(** The loop [for child in children { ... }] of [crawl_recursive] at
    [depth], with [recurse] the recursive call. *)
Fixpoint crawl_children (recurse : string -> nat -> CrawlState -> CrawlState)
    (depth : nat) (children : list BrowsedNode) (st : CrawlState) : CrawlState :=
  match children with
  | [] => st
  | child :: cs =>
      let st := push_result child st in
      let st :=
        if has_children child then recurse (node_id child) (S depth) st else st in
      if Nat.leb (max_nodes config) (length (results st)) then st
      else crawl_children recurse depth cs st
  end.

(** [crawl_recursive] for a call whose [depth] is [max_depth - fuel]:
    [fuel = 0] is exactly the [depth >= max_depth] exit, and the recursive
    call at [depth + 1] has one unit less. *)
Fixpoint crawl_at (fuel : nat) (nid : string) (depth : nat) (st : CrawlState)
    : CrawlState :=
  match fuel with
  | O => st
  | S fuel' =>
      if bool_decide (nid ∈ visited st) then st
      else
        let st := mark_visited nid st in
        match browse nid with
        | Some children => crawl_children (crawl_at fuel') depth children st
        | None => st
        end
  end.

(** [Crawler::crawl_recursive(node_id, depth)] *)
Definition crawl_recursive (nid : string) (depth : nat) (st : CrawlState) : CrawlState :=
  crawl_at (max_depth config - depth) nid depth st.

(** [Crawler::crawl]: clear the state and start at depth 0. *)
Definition crawl : list BrowsedNode :=
  results (crawl_recursive (start_node config) 0 {| visited := []; results := [] |}).

End Crawl.

(** Depth in the reference graph: [reaches browse start n k] holds when
    [n] is reached from [start] by [k] browse steps (each step goes from a
    node to one of the children its browse returns). *)
Inductive reaches (browse : string -> option (list BrowsedNode)) (start : string)
    : string -> nat -> Prop :=
| reaches_start : reaches browse start start 0
| reaches_child x k cs c :
    reaches browse start x k -> browse x = Some cs -> In c cs ->
    reaches browse start (node_id c) (S k).

(** Invariant of a crawl from [start_node]: every identifier is marked
    visited at most once, every visited node lies at depth below
    [max_depth], and every collected node at depth between 1 and
    [max_depth]. *)
Definition crawl_inv (browse : string -> option (list BrowsedNode)) (config : CrawlConfig)
    (st : CrawlState) : Prop :=
  NoDup (visited st)
  /\ (forall x, In x (visited st) ->
        exists k, k < max_depth config /\ reaches browse (start_node config) x k)
  /\ (forall c, In c (results st) ->
        exists k, 1 <= k <= max_depth config
                  /\ reaches browse (start_node config) (node_id c) k).

End Crawler.

(* ------------------------------------------------------------------ *)
(** ** [opcua/subscription.rs] and [opcua/subscription_manager.rs] *)
(* ------------------------------------------------------------------ *)

(** IEEE arithmetic plays no role in the properties below, so [f64], [f32],
    the [DateTime] type and the conversions [as f64] are left abstract
    (section variables); the wall-clock reading used when a value has no
    source timestamp is an explicit argument [now] of [update]. *)
Module Subscription.

Inductive StatusCode := Good | BadWaitingForInitialData | OtherStatus (code : N).

Section Values.

Context {f64 f32 DateTime : Type}.
Variable f64_of_int : Z -> f64.
Variable f64_of_f32 : f32 -> f64.
Variables f64_zero f64_one : f64.
(** [dt.as_chrono().timestamp_millis() as f64 / 1000.0] *)
Variable timestamp_seconds : DateTime -> f64.

(** [opcua::types::Variant] *)
Inductive Variant :=
| Empty
| Boolean (b : bool)
| SByte (v : Z) | Byte (v : Z) | Int16 (v : Z) | UInt16 (v : Z)
| Int32 (v : Z) | UInt32 (v : Z) | Int64 (v : Z) | UInt64 (v : Z)
| Float (v : f32) | Double (v : f64)
| String_ (s : str)
| DateTime_ (dt : DateTime)
| Guid (g : str)
| StatusCode_ (sc : StatusCode)
| ByteString (bs : list N)
| XmlElement (x : str)
| QualifiedName (ns : N) (name : str)
| LocalizedText (locale text : str)
| NodeId (n : string)
| ExpandedNodeId (n : string)
| ExtensionObject (body : list N)
| Array (vs : list Variant).

(** [opcua::types::DataValue] *)
Record DataValue := {
  dv_value : option Variant;
  dv_status : option StatusCode;
  dv_source_timestamp : option DateTime;
  dv_server_timestamp : option DateTime;
}.

Definition MAX_HISTORY_POINTS : nat := 600.

Record MonitoredData := {
  md_node_id : string;
  md_display_name : string;
  monitored_item_id : option N;
  value : option Variant;
  status : StatusCode;
  source_timestamp : option DateTime;
  server_timestamp : option DateTime;
  history : list (f64 * f64);
  show_in_trend : bool;
  trend_color : option (N * N * N);
}.

(** [MonitoredData::new] *)
Definition new_monitored_data (nid : string) (name : string) : MonitoredData :=
  {| md_node_id := nid; md_display_name := name; monitored_item_id := None;
     value := None; status := BadWaitingForInitialData;
     source_timestamp := None; server_timestamp := None; history := [];
     show_in_trend := false; trend_color := None |}.

(** [variant_to_f64] *)
Definition variant_to_f64 (v : Variant) : option f64 :=
  match v with
  | Boolean b => Some (if b then f64_one else f64_zero)
  | SByte v | Byte v | Int16 v | UInt16 v
  | Int32 v | UInt32 v | Int64 v | UInt64 v => Some (f64_of_int v)
  | Float v => Some (f64_of_f32 v)
  | Double v => Some v
  | _ => None
  end.

(** The numeric variants in the words of the specification: booleans,
    the integer types and the floating-point types. *)
Definition is_numeric (v : Variant) : bool :=
  match v with
  | Boolean _ | SByte _ | Byte _ | Int16 _ | UInt16 _ | Int32 _ | UInt32 _
  | Int64 _ | UInt64 _ | Float _ | Double _ => true
  | _ => false
  end.

(** [while self.history.len() > MAX_HISTORY_POINTS { pop_front() }];
    every iteration removes one element, so [length h] rounds suffice. *)
Fixpoint trim_history (fuel : nat) (h : list (f64 * f64)) : list (f64 * f64) :=
  match fuel with
  | O => h
  | S f =>
      if Nat.ltb MAX_HISTORY_POINTS (length h) then trim_history f (tail h) else h
  end.

Definition set_history (h : list (f64 * f64)) (md : MonitoredData) : MonitoredData :=
  {| md_node_id := md_node_id md; md_display_name := md_display_name md;
     monitored_item_id := monitored_item_id md; value := value md;
     status := status md; source_timestamp := source_timestamp md;
     server_timestamp := server_timestamp md; history := h;
     show_in_trend := show_in_trend md; trend_color := trend_color md |}.

(** [MonitoredData::update] *)
Definition update (now : f64) (dv : DataValue) (md : MonitoredData) : MonitoredData :=
  let md :=
    {| md_node_id := md_node_id md; md_display_name := md_display_name md;
       monitored_item_id := monitored_item_id md; value := dv_value dv;
       status := default Good (dv_status dv);
       source_timestamp := dv_source_timestamp dv;
       server_timestamp := dv_server_timestamp dv; history := history md;
       show_in_trend := show_in_trend md; trend_color := trend_color md |} in
  match value md with
  | Some variant =>
      match variant_to_f64 variant with
      | Some numeric =>
          let timestamp :=
            match source_timestamp md with
            | Some dt => timestamp_seconds dt
            | None => now
            end in
          let h := history md ++ [(timestamp, numeric)] in
          set_history (trim_history (length h) h) md
      | None => md
      end
  | None => md
  end.

(** [SubscriptionState] *)
Record SubscriptionState := {
  subscription_id : option N;
  handle_to_node : gmap N string;
  node_to_handle : gmap string N;
  handle_to_server_id : gmap N N;
}.

Definition empty_state : SubscriptionState :=
  {| subscription_id := None; handle_to_node := ∅; node_to_handle := ∅;
     handle_to_server_id := ∅ |}.

(** [SubscriptionState::register_item] *)
Definition register_item (nid : string) (monitored_item_id : N) (handle : N)
    (s : SubscriptionState) : SubscriptionState :=
  {| subscription_id := subscription_id s;
     handle_to_node := <[handle := nid]> (handle_to_node s);
     node_to_handle := <[nid := handle]> (node_to_handle s);
     handle_to_server_id := <[handle := monitored_item_id]> (handle_to_server_id s) |}.

(** [SubscriptionState::unregister_by_node]: the new state and the
    returned server item id. *)
Definition unregister_by_node (nid : string) (s : SubscriptionState)
    : SubscriptionState * option N :=
  match node_to_handle s !! nid with
  | Some handle =>
      ({| subscription_id := subscription_id s;
          handle_to_node := delete handle (handle_to_node s);
          node_to_handle := delete nid (node_to_handle s);
          handle_to_server_id := delete handle (handle_to_server_id s) |},
       handle_to_server_id s !! handle)
  | None => (s, None)
  end.

(** [SubscriptionState::clear] *)
Definition clear (s : SubscriptionState) : SubscriptionState := empty_state.

(** [SubscriptionAction] *)
Inductive SubscriptionAction :=
| None'
| CreateSubscription
| AddItems (nodes : list string).

Record SubscriptionManager := {
  monitored_items : gmap string MonitoredData;
  subscription_state : SubscriptionState;
  pending_monitored_items : list string;
  creating_subscription : bool;
}.

(** [SubscriptionManager::request_add_to_watchlist] *)
Definition request_add_to_watchlist (node : Crawler.BrowsedNode) (m : SubscriptionManager)
    : SubscriptionManager * SubscriptionAction :=
  let nid := Crawler.node_id node in
  match monitored_items m !! nid with
  | Some _ => (m, None')
  | None =>
      let data := new_monitored_data nid (Crawler.display_name node) in
      let items := <[nid := data]> (monitored_items m) in
      match subscription_id (subscription_state m) with
      | Some _ =>
          ({| monitored_items := items; subscription_state := subscription_state m;
              pending_monitored_items := pending_monitored_items m;
              creating_subscription := creating_subscription m |},
           AddItems [nid])
      | None =>
          let pending := pending_monitored_items m ++ [nid] in
          if negb (creating_subscription m) then
            ({| monitored_items := items; subscription_state := subscription_state m;
                pending_monitored_items := pending; creating_subscription := true |},
             CreateSubscription)
          else
            ({| monitored_items := items; subscription_state := subscription_state m;
                pending_monitored_items := pending;
                creating_subscription := creating_subscription m |},
             None')
      end
  end.

(** A sequence of watch requests handled one after the other; the actions
    returned, in order. *)
Fixpoint request_all (nodes : list Crawler.BrowsedNode) (m : SubscriptionManager)
    : SubscriptionManager * list SubscriptionAction :=
  match nodes with
  | [] => (m, [])
  | n :: ns =>
      let '(m1, a) := request_add_to_watchlist n m in
      let '(m2, acts) := request_all ns m1 in
      (m2, a :: acts)
  end.

(** [MonitoredData::is_trendable] *)
Definition is_trendable (md : MonitoredData) : bool :=
  match value md with
  | Some v => match variant_to_f64 v with Some _ => true | None => false end
  | None => false
  end.

(** [SubscriptionState::get_node_id] *)
Definition get_node_id (handle : N) (s : SubscriptionState) : option string :=
  handle_to_node s !! handle.

Definition set_subscription_id (id : option N) (s : SubscriptionState) : SubscriptionState :=
  {| subscription_id := id; handle_to_node := handle_to_node s;
     node_to_handle := node_to_handle s; handle_to_server_id := handle_to_server_id s |}.

(** [SubscriptionManager::clear] *)
Definition manager_clear (m : SubscriptionManager) : SubscriptionManager :=
  {| monitored_items := ∅; subscription_state := clear (subscription_state m);
     pending_monitored_items := []; creating_subscription := false |}.

(** [SubscriptionManager::remove_from_watchlist]: the new manager and the
    [(sub_id, item_ids)] of the [spawn_remove_items_task] it starts, if any. *)
Definition remove_from_watchlist (nid : string) (m : SubscriptionManager)
    : SubscriptionManager * option (N * list N) :=
  let '(st, removed) := unregister_by_node nid (subscription_state m) in
  let task :=
    match removed with
    | Some item_id =>
        match subscription_id st with
        | Some sub_id => Some (sub_id, [item_id])
        | None => None
        end
    | None => None
    end in
  ({| monitored_items := delete nid (monitored_items m); subscription_state := st;
      pending_monitored_items := pending_monitored_items m;
      creating_subscription := creating_subscription m |}, task).

(** [SubscriptionManager::spawn_add_items_task]: the new manager and the
    [(sub_id, node_ids)] passed to [add_monitored_items] by the spawned
    task, if one is spawned. *)
Definition spawn_add_items_task (m : SubscriptionManager)
    : SubscriptionManager * option (N * list string) :=
  let sub_id := default 0%N (subscription_id (subscription_state m)) in
  if (sub_id =? 0)%N then (m, None)
  else
    match pending_monitored_items m with
    | [] => (m, None)
    | node_ids =>
        (* std::mem::take *)
        ({| monitored_items := monitored_items m; subscription_state := subscription_state m;
            pending_monitored_items := []; creating_subscription := creating_subscription m |},
         Some (sub_id, node_ids))
    end.

(** [SubscriptionManager::spawn_add_specific_items_task] ([&self]): the
    [(sub_id, node_ids)] passed to [add_monitored_items], if a task is
    spawned. *)
Definition spawn_add_specific_items_task (node_ids : list string) (m : SubscriptionManager)
    : option (N * list string) :=
  let sub_id := default 0%N (subscription_id (subscription_state m)) in
  if (sub_id =? 0)%N then None else Some (sub_id, node_ids).

Definition set_monitored_items (items : gmap string MonitoredData) (m : SubscriptionManager)
    : SubscriptionManager :=
  {| monitored_items := items; subscription_state := subscription_state m;
     pending_monitored_items := pending_monitored_items m;
     creating_subscription := creating_subscription m |}.

(** [SubscriptionManager::handle_data_change] *)
Definition handle_data_change (now : f64) (handle : N) (dv : DataValue) (m : SubscriptionManager)
    : SubscriptionManager :=
  match get_node_id handle (subscription_state m) with
  | Some nid =>
      match monitored_items m !! nid with
      | Some item => set_monitored_items (<[nid := update now dv item]> (monitored_items m)) m
      | None => m
      end
  | None => m
  end.

(** [item.monitored_item_id = Some(item_id); item.status = StatusCode::Good;] *)
Definition mark_created (item_id : N) (md : MonitoredData) : MonitoredData :=
  {| md_node_id := md_node_id md; md_display_name := md_display_name md;
     monitored_item_id := Some item_id; value := value md; status := Good;
     source_timestamp := source_timestamp md; server_timestamp := server_timestamp md;
     history := history md; show_in_trend := show_in_trend md;
     trend_color := trend_color md |}.

(** [SubscriptionManager::handle_monitored_items_added]; a pair is
    [(node_id, item_id, handle)]. *)
Fixpoint handle_monitored_items_added (pairs : list (string * N * N)) (m : SubscriptionManager)
    : SubscriptionManager :=
  match pairs with
  | [] => m
  | (nid, item_id, handle) :: ps =>
      let st := register_item nid item_id handle (subscription_state m) in
      let items :=
        match monitored_items m !! nid with
        | Some item => <[nid := mark_created item_id item]> (monitored_items m)
        | None => monitored_items m
        end in
      handle_monitored_items_added ps
        {| monitored_items := items; subscription_state := st;
           pending_monitored_items := pending_monitored_items m;
           creating_subscription := creating_subscription m |}
  end.

(** The part of [app.rs] that drives the manager: the [BackendMessage]s
    the message loop of [update] passes to it, and the tasks it spawns.
    [SessionEstablished] and [SessionClosed] both clear the manager. *)
Inductive BackendMessage :=
| SessionEstablished
| SessionClosed
| Error'
| DataChange (handle : N) (dv : DataValue)
| SubscriptionCreated (id : N)
| MonitoredItemsAdded (pairs : list (string * N * N)).

(** A spawned task, with the arguments of the client call it makes:
    [spawn_subscription_task], [spawn_add_items_task] /
    [spawn_add_specific_items_task], [spawn_remove_items_task]. *)
Inductive Task :=
| CreateSubscriptionTask
| AddItemsTask (sub_id : N) (node_ids : list string)
| RemoveItemsTask (sub_id : N) (item_ids : list N).

Definition add_task (t : option (N * list string)) : option Task :=
  match t with
  | Some (sub_id, node_ids) => Some (AddItemsTask sub_id node_ids)
  | None => None
  end.

(** The subscription-manager part of the [match msg] arms of the message
    loop in [app.rs]. *)
Definition handle_message (now : f64) (msg : BackendMessage) (m : SubscriptionManager)
    : SubscriptionManager * option Task :=
  match msg with
  | SessionEstablished | SessionClosed => (manager_clear m, None)
  | Error' =>
      ({| monitored_items := monitored_items m; subscription_state := subscription_state m;
          pending_monitored_items := pending_monitored_items m;
          creating_subscription := false |}, None)
  | DataChange handle dv => (handle_data_change now handle dv m, None)
  | SubscriptionCreated id =>
      let m1 :=
        {| monitored_items := monitored_items m;
           subscription_state := set_subscription_id (Some id) (subscription_state m);
           pending_monitored_items := pending_monitored_items m;
           creating_subscription := false |} in
      let '(m2, t) := spawn_add_items_task m1 in
      (m2, add_task t)
  | MonitoredItemsAdded pairs => (handle_monitored_items_added pairs m, None)
  end.

(** [App::add_to_watchlist] *)
Definition add_to_watchlist (node : Crawler.BrowsedNode) (m : SubscriptionManager)
    : SubscriptionManager * option Task :=
  let '(m1, action) := request_add_to_watchlist node m in
  match action with
  | None' => (m1, None)
  | CreateSubscription => (m1, Some CreateSubscriptionTask)
  | AddItems items => (m1, add_task (spawn_add_specific_items_task items m1))
  end.

(** Invariant, not part of the program: the three maps of a
    [SubscriptionState] mirror each other ([handle_to_node] and
    [node_to_handle] are inverse, and [handle_to_server_id] has an entry
    for exactly the registered handles). *)
Definition mirrored (s : SubscriptionState) : Prop :=
  (forall h n, handle_to_node s !! h = Some n <-> node_to_handle s !! n = Some h)
  /\ (forall h, is_Some (handle_to_node s !! h) <-> is_Some (handle_to_server_id s !! h)).

(** [App::remove_from_watchlist] *)
Definition app_remove_from_watchlist (nid : string) (m : SubscriptionManager)
    : SubscriptionManager * option Task :=
  let '(m1, t) := remove_from_watchlist nid m in
  (m1, match t with
       | Some (sub_id, item_ids) => Some (RemoveItemsTask sub_id item_ids)
       | None => None
       end).

End Values.

End Subscription.

(* ------------------------------------------------------------------ *)
(** ** [opcua/client.rs] *)
(* ------------------------------------------------------------------ *)

Module Client.

(** The session object of the protocol library; [session_live] is the
    state of the remote connection it holds (what a keep-alive or a
    service call would reveal). *)
Record Session := { session_live : bool; session_endpoint : string }.

Record OpcUaClient := { session : Session }.

(** [OpcUaClient::is_connected] *)
Definition is_connected (c : OpcUaClient) : bool := true.

(** [NEXT_CLIENT_HANDLE.fetch_add(1, Ordering::Relaxed)] on the
    [AtomicU32] counter: the value before the add, and the counter after
    it (wrapping at [2^32]). *)
Definition fetch_add (counter : N) : N * N := (counter, ((counter + 1) mod 2 ^ 32)%N).

(** The [for node_id in node_ids] loop of [add_monitored_items]: one
    client handle per node, in order; the handles and the final counter. *)
Fixpoint alloc_handles (counter : N) (node_ids : list string) : list N * N :=
  match node_ids with
  | [] => ([], counter)
  | _ :: ns =>
      let '(client_handle, counter1) := fetch_add counter in
      let '(handles, counter2) := alloc_handles counter1 ns in
      (client_handle :: handles, counter2)
  end.

(** [MonitoredItemCreateResult]: the fields the client reads. *)
Record MonitoredItemCreateResult := {
  result_status : Subscription.StatusCode;
  result_monitored_item_id : N;
}.

(** The outcome of [add_monitored_items]: [Ok(pairs)], [Err] (the service
    call failed) or a panic (an index out of bounds). *)
Inductive AddOutcome :=
| AddOk (pairs : list (string * N * N))
| AddErr
| AddPanic.

Section AddItems.

(** [StatusCode::is_good] of the protocol library. *)
Variable is_good : Subscription.StatusCode -> bool.

(** [for (i, result) in results.iter().enumerate()]: [None] when
    [node_ids[i]] is out of bounds. Both branches index [node_ids[i]]: the
    good one in the pushed pair, the other in the [warn!] arguments, which
    are evaluated because [main.rs] installs an [INFO] filter. *)
Fixpoint collect_pairs (node_ids : list string) (handles : list N)
    (results : list MonitoredItemCreateResult) {struct results}
    : option (list (string * N * N)) :=
  match results with
  | [] => Some []
  | r :: rs =>
      match node_ids, handles with
      | nid :: ns, h :: hs =>
          let rest := collect_pairs ns hs rs in
          if is_good (result_status r)
          then (fun ps => (nid, result_monitored_item_id r, h) :: ps) <$> rest
          else rest
      | _, _ => None
      end
  end.

(** [OpcUaClient::add_monitored_items]: [counter] is [NEXT_CLIENT_HANDLE]
    and [create_monitored_items] the session's service call on the
    subscription id and the [(node, client handle)] requests ([None] for
    [Err]); the outcome and the counter afterwards. *)
Definition add_monitored_items
    (create_monitored_items : N -> list (string * N) -> option (list MonitoredItemCreateResult))
    (counter : N) (subscription_id : N) (node_ids : list string) : AddOutcome * N :=
  match node_ids with
  | [] => (AddOk [], counter)
  | _ :: _ =>
      let '(handles, counter1) := alloc_handles counter node_ids in
      match create_monitored_items subscription_id (combine node_ids handles) with
      | None => (AddErr, counter1)
      | Some results =>
          match collect_pairs node_ids handles results with
          | Some pairs => (AddOk pairs, counter1)
          | None => (AddPanic, counter1)
          end
      end
  end.

End AddItems.

End Client.

(* ------------------------------------------------------------------ *)
(** ** [network/discovery.rs] *)
(* ------------------------------------------------------------------ *)

Module Discovery.

Import Pipeline.

(** [char::to_lowercase] below 256: the ASCII capitals and the Latin-1
    capitals U+00C0..U+00DE except U+00D7 map to the code point [+ 32]. *)
Definition char_to_lowercase (c : ascii) : ascii :=
  let n := nat_of_ascii c in
  if (((65 <=? n) && (n <=? 90)) || ((192 <=? n) && (n <=? 222) && negb (n =? 215)))%nat
  then ascii_of_nat (n + 32)%nat else c.

(** [str::to_lowercase] *)
Definition to_lowercase (s : str) : str := map char_to_lowercase s.

(** [parse_security_policy_name]; [split_last] is [rfind] followed by
    the slice after the found position. *)
Definition parse_security_policy_name (uri : str) : str :=
  match split_last "#" uri with
  | Some (_, after) => after
  | None =>
      match split_last "/" uri with
      | Some (_, after) => after
      | None =>
          match uri with
          | [] => lit "None"
          | _ :: _ => if contains (lit "none") (to_lowercase uri) then lit "None" else uri
          end
      end
  end.

(** [EndpointInfo::allows_anonymous] *)
Definition allows_anonymous (ep : EndpointInfo) : bool :=
  existsb (fun t => contains (lit "anonymous") (to_lowercase t)) (user_tokens ep).

(** [opcua::types::UserTokenType] *)
Inductive UserTokenType := Anonymous | UserName | Certificate | IssuedToken.

Definition token_type_name (t : UserTokenType) : str :=
  match t with
  | Anonymous => lit "Anonymous"
  | UserName => lit "UserName"
  | Certificate => lit "Certificate"
  | IssuedToken => lit "IssuedToken"
  end.

(** The user-token text built by [discover_endpoints]:
    [format!("{} ({})", token_type, policy_id)]. *)
Definition token_label (t : UserTokenType) (policy_id : str) : str :=
  token_type_name t ++ lit " (" ++ policy_id ++ lit ")".

End Discovery.

(* ------------------------------------------------------------------ *)
(** ** [network/precheck.rs] *)
(* ------------------------------------------------------------------ *)

Module Precheck.

(** [Result<(String, u16), String>] *)
Inductive EndpointResult :=
| Ok (host : str) (port : N)
| Err (msg : str).

(** [parse_endpoint_url]; [split('/').next()] always yields a part. *)
Definition parse_endpoint_url (url : str) : EndpointResult :=
  match strip_prefix (lit "opc.tcp://") url with
  | None => Err (lit "URL must start with opc.tcp://")
  | Some without_scheme =>
      let host_port := split_first "/" without_scheme in
      match rsplitn2 ":" host_port with
      | [p0; p1] =>
          match parse_u16 p0 with
          | Some port => Ok p1 port
          | None => Err (lit "Invalid port: " ++ p0)
          end
      | [p0] =>
          match p0 with
          | [] => Err (lit "Host cannot be empty")
          | _ :: _ => Ok p0 4840%N
          end
      | _ => Err (lit "Invalid host:port format")
      end
  end.

End Precheck.

(* ================================================================== *)
(** * Concrete inputs used by the witnesses and counterexamples *)
(* ================================================================== *)

Local Close Scope char_scope.

Module ClientFacts.
Import Client.

Definition dropped_client : OpcUaClient :=
  {| session := {| session_live := false; session_endpoint := "opc.tcp://plc:4840" |} |}.

End ClientFacts.

Module StateFacts.
Import Subscription.

(** One node registered twice with distinct handles, as happens when two
    add-items tasks for the same node both report back. *)
Definition twice_registered : SubscriptionState :=
  register_item "ns=2;s=Var1" 101 2 (register_item "ns=2;s=Var1" 100 1 empty_state).

End StateFacts.

Module WatchInputs.
Import Subscription.

Definition variable_node (nid name : string) : Crawler.BrowsedNode :=
  {| Crawler.node_id := nid; Crawler.browse_name := name; Crawler.display_name := name;
     Crawler.node_class := Crawler.Variable'; Crawler.type_definition := None;
     Crawler.has_children := false |}.

Definition node1 := variable_node "ns=2;s=Temperature" "Temperature".
Definition node2 := variable_node "ns=2;s=Pressure" "Pressure".
Definition node3 := variable_node "ns=2;s=Level" "Level".

(** [SubscriptionManager::new] *)
Definition fresh_manager : @SubscriptionManager unit unit unit :=
  {| monitored_items := ∅; subscription_state := empty_state;
     pending_monitored_items := []; creating_subscription := false |}.

End WatchInputs.

Module CrawlInputs.
Import Crawler.

Definition container_node (nid : string) : BrowsedNode :=
  {| node_id := nid; browse_name := nid; display_name := nid;
     node_class := Object; type_definition := None; has_children := true |}.

(** A chain [root -> a -> b -> c] of container nodes. *)
Definition chain_browse (nid : string) : option (list BrowsedNode) :=
  if decide (nid = "root") then Some [container_node "a"]
  else if decide (nid = "a") then Some [container_node "b"]
  else if decide (nid = "b") then Some [container_node "c"]
  else Some [].

Definition chain_config : CrawlConfig :=
  {| max_depth := 3; max_nodes := 1; start_node := "root" |}.

End CrawlInputs.

Module DiagInputs.
Import Diagnostics Pipeline.

Definition input_with_port : str := lit "10.0.0.1:4840".

Definition sample_endpoint : EndpointInfo :=
  {| security_policy_name := lit "None"; security_mode := lit "None";
     has_certificate := false; user_tokens := [lit "Anonymous"];
     endpoint_url := lit "opc.tcp://server:4840" |}.

(** Name resolution succeeds, and no TCP port accepts a connection. *)
Definition closed_net : Net :=
  {| resolve := fun _ => Some [lit "10.0.0.1"];
     tcp_connect := fun _ => false;
     discover_endpoints := fun _ => None |}.

(** Every port is open and answers discovery with one endpoint. *)
Definition serving_net : Net :=
  {| resolve := fun _ => Some [lit "10.0.0.1"];
     tcp_connect := fun _ => true;
     discover_endpoints := fun _ => Some [sample_endpoint] |}.

Definition never_cancelled (_ : nat) : bool := false.

(** The token is cancelled from the [n]-th query on. *)
Definition cancelled_from (n i : nat) : bool := Nat.leb n i.

End DiagInputs.

Module ExtraInputs.
Import Subscription Client.

Definition unit_of_int (_ : Z) : unit := tt.
Definition unit_of_unit (_ : unit) : unit := tt.

(** A manager with subscription 7 and one watched node, not yet
    confirmed by the server. *)
Definition subscribed_manager : @SubscriptionManager unit unit unit :=
  {| monitored_items :=
       <["ns=2;s=Temperature" := new_monitored_data "ns=2;s=Temperature" "Temperature"]> ∅;
     subscription_state := set_subscription_id (Some 7%N) empty_state;
     pending_monitored_items := []; creating_subscription := false |}.

(** Two nodes requested while the subscription is being created. *)
Definition queued_manager : @SubscriptionManager unit unit unit :=
  fst (request_all [WatchInputs.node1; WatchInputs.node2] WatchInputs.fresh_manager).

Definition sample_dv : @DataValue unit unit unit :=
  {| dv_value := Some (Double tt); dv_status := None; dv_source_timestamp := None;
     dv_server_timestamp := None |}.

(** [StatusCode::is_good]: the severity bits (the two top bits of the
    32-bit code) are zero. *)
Definition severity_is_good (s : StatusCode) : bool :=
  match s with
  | Good => true
  | BadWaitingForInitialData => false
  | OtherStatus code => N.eqb (N.shiftr code 30) 0
  end.

(** A server that accepts every requested item, with server id
    [100 + handle]. *)
Definition accepting_server (_ : N) (reqs : list (string * N)) : option (list MonitoredItemCreateResult) :=
  Some (map (fun r => {| result_status := Good; result_monitored_item_id := (100 + snd r)%N |}) reqs).

(** A server that answers with one result more than requested. *)
Definition overfull_server (sid : N) (reqs : list (string * N)) : option (list MonitoredItemCreateResult) :=
  (fun rs => rs ++ [{| result_status := Good; result_monitored_item_id := 0%N |}])
    <$> accepting_server sid reqs.

Definition two_nodes : list string := ["ns=2;s=Temperature"; "ns=2;s=Pressure"].

(** The value-dependent operations at the unit instance of [f64], [f32]
    and [DateTime]. *)
Definition unit_message := @handle_message unit unit unit unit_of_int unit_of_unit tt tt unit_of_unit.
Definition unit_update := @update unit unit unit unit_of_int unit_of_unit tt tt unit_of_unit.
Definition unit_is_trendable := @is_trendable unit unit unit unit_of_int unit_of_unit tt tt.
Definition unit_data_change := @handle_data_change unit unit unit unit_of_int unit_of_unit tt tt unit_of_unit.

End ExtraInputs.

(* ================================================================== *)
(** * Properties *)
(* ================================================================== *)

(* ------------------------------------------------------------------ *)
(** ** Session gateway: [is_connected] *)
(* ------------------------------------------------------------------ *)

(** Claim C1 (as stated, refuted): [is_connected] does not follow the
    liveness of the connection; a client whose session's connection is
    down still reports [true]. *)
Lemma is_connected_not_liveness :
  ~ (forall c : Client.OpcUaClient,
       Client.is_connected c = true <-> Client.session_live (Client.session c) = true).
Proof.
  intros H. destruct (H ClientFacts.dropped_client) as [Hl _].
  specialize (Hl eq_refl). discriminate Hl.
Qed.

(** Claim C1 (amended): [is_connected] returns [true] for every client
    holding a session object, whatever the state of the remote
    connection. *)
Theorem is_connected_always_true :
  forall c : Client.OpcUaClient, Client.is_connected c = true.
Proof. intros c. reflexivity. Qed.

(* ------------------------------------------------------------------ *)
(** ** [SubscriptionState]: the three maps *)
(* ------------------------------------------------------------------ *)

(** Claim C7 (defect): after registering node [ns=2;s=Var1] with handle 1
    and then with handle 2, [handle_to_node] maps handle 1 to the node
    while [node_to_handle] maps the node to handle 2 (no mirror entry for
    handle 1), and [unregister_by_node] then removes only handle 2: handle
    1 stays in [handle_to_node] and [handle_to_server_id]. *)
Theorem register_twice_breaks_mirror :
  let s := StateFacts.twice_registered in
  let s' := fst (Subscription.unregister_by_node "ns=2;s=Var1" s) in
  Subscription.handle_to_node s !! 1%N = Some "ns=2;s=Var1"
  /\ Subscription.node_to_handle s !! "ns=2;s=Var1" = Some 2%N
  /\ Subscription.handle_to_node s' !! 1%N = Some "ns=2;s=Var1"
  /\ Subscription.handle_to_server_id s' !! 1%N = Some 100%N
  /\ Subscription.node_to_handle s' !! "ns=2;s=Var1" = None.
Proof. vm_compute. repeat split; reflexivity. Qed.

(* ------------------------------------------------------------------ *)
(** ** Subscription manager: [request_add_to_watchlist] *)
(* ------------------------------------------------------------------ *)

Module WatchlistFacts.
Import Subscription.

Section Requests.

Context {f64 f32 DT : Type}.

Lemma request_untracked_in_flight (m : @SubscriptionManager f64 f32 DT)
    (n : Crawler.BrowsedNode) :
  monitored_items m !! Crawler.node_id n = None ->
  subscription_id (subscription_state m) = None ->
  creating_subscription m = true ->
  request_add_to_watchlist n m =
    ({| monitored_items :=
          <[Crawler.node_id n := new_monitored_data (Crawler.node_id n) (Crawler.display_name n)]>
            (monitored_items m);
        subscription_state := subscription_state m;
        pending_monitored_items := pending_monitored_items m ++ [Crawler.node_id n];
        creating_subscription := true |}, None').
Proof.
  intros Hn Hs Hc. unfold request_add_to_watchlist.
  rewrite Hn, Hs, Hc. reflexivity.
Qed.

Lemma request_all_in_flight :
  forall (nodes : list Crawler.BrowsedNode) (m : @SubscriptionManager f64 f32 DT),
  subscription_id (subscription_state m) = None ->
  creating_subscription m = true ->
  NoDup (map Crawler.node_id nodes) ->
  Forall (fun n => monitored_items m !! Crawler.node_id n = None) nodes ->
  snd (request_all nodes m) = replicate (length nodes) None'
  /\ pending_monitored_items (fst (request_all nodes m))
       = pending_monitored_items m ++ map Crawler.node_id nodes
  /\ creating_subscription (fst (request_all nodes m)) = true
  /\ subscription_state (fst (request_all nodes m)) = subscription_state m.
Proof.
  induction nodes as [|n ns IH]; intros m Hs Hc Hnd Hfree.
  - simpl. rewrite app_nil_r. auto.
  - inversion Hfree as [|? ? Hn Hrest]; subst.
    inversion Hnd as [|? ? Hnotin Hnd']; subst.
    simpl. rewrite (request_untracked_in_flight m n Hn Hs Hc).
    set (m1 := {| monitored_items := _; subscription_state := _;
                  pending_monitored_items := _; creating_subscription := _ |}).
    destruct (IH m1) as (Ha & Hp & Hc' & Hst); [exact Hs | reflexivity | exact Hnd' | |].
    + apply Forall_forall. intros n' Hin'.
      simpl. rewrite lookup_insert_ne.
      * eapply Forall_forall in Hrest; [exact Hrest | exact Hin'].
      * intros Heq. apply Hnotin. rewrite Heq.
        apply list_elem_of_In, in_map, list_elem_of_In, Hin'.
    + destruct (request_all ns m1) as [m2 acts] eqn:E. simpl in *.
      repeat split.
      * now rewrite Ha.
      * rewrite Hp. simpl. now rewrite <- app_assoc.
      * exact Hc'.
      * exact Hst.
Qed.

End Requests.

End WatchlistFacts.

(** Claim C6: from a manager with no subscription and no creation in
    flight, a sequence of watch requests for distinct untracked nodes
    returns [CreateSubscription] for the first request and the no-op action
    for every later one, each node being appended to the pending queue and
    the creation flag staying set; a request for an already tracked node
    returns the no-op action and leaves the manager unchanged. *)
Theorem watchlist_create_once (f64 f32 DT : Type) :
  (forall (m : @Subscription.SubscriptionManager f64 f32 DT)
          (nodes : list Crawler.BrowsedNode),
     Subscription.subscription_id (Subscription.subscription_state m) = None ->
     Subscription.creating_subscription m = false ->
     NoDup (map Crawler.node_id nodes) ->
     Forall (fun n => Subscription.monitored_items m !! Crawler.node_id n = None) nodes ->
     snd (Subscription.request_all nodes m)
       = match nodes with
         | [] => []
         | _ :: ns => Subscription.CreateSubscription :: replicate (length ns) Subscription.None'
         end
     /\ Subscription.pending_monitored_items (fst (Subscription.request_all nodes m))
          = Subscription.pending_monitored_items m ++ map Crawler.node_id nodes
     /\ (nodes <> [] ->
         Subscription.creating_subscription (fst (Subscription.request_all nodes m)) = true))
  /\ (forall (m : @Subscription.SubscriptionManager f64 f32 DT) (n : Crawler.BrowsedNode),
        is_Some (Subscription.monitored_items m !! Crawler.node_id n) ->
        Subscription.request_add_to_watchlist n m = (m, Subscription.None')).
Proof.
  split.
  - intros m nodes Hs Hc Hnd Hfree.
    destruct nodes as [|n ns]; [simpl; rewrite app_nil_r; auto|].
    inversion Hfree as [|? ? Hn Hrest]; subst.
    inversion Hnd as [|? ? Hnotin Hnd']; subst.
    simpl. destruct (Subscription.request_add_to_watchlist n m) as [m1 a] eqn:Hreq.
    unfold Subscription.request_add_to_watchlist in Hreq.
    rewrite Hn, Hs, Hc in Hreq. simpl in Hreq. injection Hreq as <- <-.
    match goal with |- context [Subscription.request_all ns ?m1] =>
      destruct (WatchlistFacts.request_all_in_flight ns m1)
        as (Ha & Hp & Hc' & _); [exact Hs | reflexivity | exact Hnd' | |];
      [| destruct (Subscription.request_all ns m1) as [m2 acts] eqn:E] end.
    + apply Forall_forall. intros n' Hin'.
      simpl. rewrite lookup_insert_ne.
      * eapply Forall_forall in Hrest; [exact Hrest | exact Hin'].
      * intros Heq. apply Hnotin. rewrite Heq.
        apply list_elem_of_In, in_map, list_elem_of_In, Hin'.
    + simpl in *. repeat split.
      * now rewrite Ha.
      * rewrite Hp. simpl. now rewrite <- app_assoc.
      * intros _. exact Hc'.
  - intros m n [d Hd]. unfold Subscription.request_add_to_watchlist.
    now rewrite Hd.
Qed.

(** Witness for C6: the scenario of three nodes requested in quick
    succession on a fresh manager. *)
Lemma watchlist_create_once_witness :
  snd (Subscription.request_all [WatchInputs.node1; WatchInputs.node2; WatchInputs.node3]
         WatchInputs.fresh_manager)
    = [Subscription.CreateSubscription; Subscription.None'; Subscription.None']
  /\ Subscription.pending_monitored_items
       (fst (Subscription.request_all [WatchInputs.node1; WatchInputs.node2; WatchInputs.node3]
               WatchInputs.fresh_manager))
     = ["ns=2;s=Temperature"; "ns=2;s=Pressure"; "ns=2;s=Level"].
Proof.
  assert (Hnd : NoDup (map Crawler.node_id
                         [WatchInputs.node1; WatchInputs.node2; WatchInputs.node3])).
  { vm_compute. repeat constructor; vm_compute; intros H;
      repeat (inversion H as [|? ? ? H']; subst; clear H; rename H' into H). }
  assert (Hfree : Forall (fun n => Subscription.monitored_items WatchInputs.fresh_manager
                                     !! Crawler.node_id n = None)
                    [WatchInputs.node1; WatchInputs.node2; WatchInputs.node3]).
  { repeat constructor. }
  destruct (proj1 (watchlist_create_once unit unit unit) WatchInputs.fresh_manager
              [WatchInputs.node1; WatchInputs.node2; WatchInputs.node3]
              eq_refl eq_refl Hnd Hfree) as (Ha & Hp & _).
  split; [exact Ha | exact Hp].
Defined.

(* ------------------------------------------------------------------ *)
(** ** Data change dispatcher: [MonitoredData::update] *)
(* ------------------------------------------------------------------ *)

Module HistoryFacts.
Import Subscription.

Section History.

Context {f64 f32 DT : Type}.
Variable f64_of_int : Z -> f64.
Variable f64_of_f32 : f32 -> f64.
Variables f64_zero f64_one : f64.
Variable timestamp_seconds : DT -> f64.

Local Abbreviation to_f64 := (@variant_to_f64 f64 f32 DT f64_of_int f64_of_f32 f64_zero f64_one).
Local Abbreviation upd := (@update f64 f32 DT f64_of_int f64_of_f32 f64_zero f64_one timestamp_seconds).

Lemma trim_history_drop :
  forall fuel (h : list (f64 * f64)),
  length h - MAX_HISTORY_POINTS <= fuel ->
  trim_history fuel h = drop (length h - MAX_HISTORY_POINTS) h.
Proof.
  unfold MAX_HISTORY_POINTS.
  induction fuel as [|f IH]; intros h Hf; cbn [trim_history]; unfold MAX_HISTORY_POINTS.
  - replace (length h - 600) with 0 by lia. reflexivity.
  - destruct (Nat.ltb_spec 600 (length h)) as [Hlt|Hge].
    + destruct h as [|e h']; cbn [length tail] in *; [lia|].
      rewrite IH by lia.
      replace (S (length h') - 600) with (S (length h' - 600)) by lia.
      reflexivity.
    + replace (length h - 600) with 0 by lia. reflexivity.
Qed.

Lemma not_numeric_no_f64 (v : @Variant f64 f32 DT) :
  is_numeric v = false -> to_f64 v = None.
Proof. destruct v; simpl; congruence. Qed.

Lemma numeric_f64 (v : @Variant f64 f32 DT) :
  is_numeric v = true -> exists x, to_f64 v = Some x.
Proof. destruct v; simpl; try discriminate; eauto. Qed.

Lemma update_history_bounded now dv (md : @MonitoredData f64 f32 DT) :
  length (history md) <= MAX_HISTORY_POINTS ->
  length (history (upd now dv md)) <= MAX_HISTORY_POINTS.
Proof.
  intros Hmd. unfold update. simpl.
  destruct (dv_value dv) as [v|]; simpl; [|exact Hmd].
  destruct (variant_to_f64 _ _ _ _ v) as [x|]; simpl; [|exact Hmd].
  rewrite trim_history_drop by lia.
  rewrite length_drop. lia.
Qed.

(** Claim C9: an update appends [(timestamp_seconds, value)] exactly when
    the new value is numeric (booleans as 0/1), the timestamp being the
    source timestamp if present and the wall-clock reading otherwise, and
    then drops from the front what exceeds 600 samples; a non-numeric or
    absent value leaves the history unchanged; along any sequence of
    updates of a new item the history never holds more than 600 samples. *)
Theorem update_history_ring :
  (forall (now : f64) (dv : @DataValue f64 f32 DT) (md : @MonitoredData f64 f32 DT)
          (v : @Variant f64 f32 DT),
     dv_value dv = Some v -> is_numeric v = true ->
     exists x, to_f64 v = Some x /\
       history (upd now dv md)
         = let stamp := match dv_source_timestamp dv with
                        | Some dt => timestamp_seconds dt
                        | None => now
                        end in
           let h := history md ++ [(stamp, x)] in
           drop (length h - MAX_HISTORY_POINTS) h)
  /\ (forall (now : f64) (dv : @DataValue f64 f32 DT) (md : @MonitoredData f64 f32 DT),
        (forall v, dv_value dv = Some v -> is_numeric v = false) ->
        history (upd now dv md) = history md)
  /\ (forall b : bool, to_f64 (Boolean b) = Some (if b then f64_one else f64_zero))
  /\ (forall (nid name : string) (ups : list (f64 * @DataValue f64 f32 DT)),
        length (history (fold_left (fun md '(now, dv) => upd now dv md) ups
                           (new_monitored_data nid name)))
        <= MAX_HISTORY_POINTS).
Proof.
  split; [|split; [|split]].
  - intros now dv md v Hv Hnum.
    destruct (numeric_f64 v Hnum) as [x Hx]. exists x. split; [exact Hx|].
    unfold update. simpl. rewrite Hv. simpl.
    rewrite Hx. simpl.
    apply trim_history_drop. lia.
  - intros now dv md Hnot. unfold update. simpl.
    destruct (dv_value dv) as [v|] eqn:Hv; simpl; [|reflexivity].
    rewrite (not_numeric_no_f64 v (Hnot v eq_refl)). reflexivity.
  - intros b. reflexivity.
  - intros nid name ups.
    assert (Hgen : forall ups (md : @MonitoredData f64 f32 DT),
               length (history md) <= MAX_HISTORY_POINTS ->
               length (history (fold_left (fun md '(now, dv) => upd now dv md) ups md))
               <= MAX_HISTORY_POINTS).
    { induction ups0 as [|[now dv] ups' IH]; intros md Hmd; simpl; [exact Hmd|].
      apply IH. apply update_history_bounded. exact Hmd. }
    apply Hgen. simpl. unfold MAX_HISTORY_POINTS. lia.
Qed.

End History.

End HistoryFacts.

(** Witness for C9: a fresh item receiving an [Int32] value with no source
    timestamp (floats modelled by [Z], [now] = 1700000000). *)
Lemma update_history_ring_witness :
  Subscription.history
    (@Subscription.update Z unit unit (fun z => z) (fun _ => 0%Z) 0%Z 1%Z (fun _ => 0%Z)
       1700000000%Z
       {| Subscription.dv_value := Some (Subscription.Int32 42%Z);
          Subscription.dv_status := None;
          Subscription.dv_source_timestamp := None;
          Subscription.dv_server_timestamp := None |}
       (Subscription.new_monitored_data "ns=2;s=Temperature" "Temperature"))
  = [(1700000000%Z, 42%Z)].
Proof.
  destruct (proj1 (HistoryFacts.update_history_ring (f64 := Z) (f32 := unit) (DT := unit)
                     (fun z => z) (fun _ => 0%Z) 0%Z 1%Z (fun _ => 0%Z))
              1700000000%Z
              {| Subscription.dv_value := Some (Subscription.Int32 42%Z);
                 Subscription.dv_status := None;
                 Subscription.dv_source_timestamp := None;
                 Subscription.dv_server_timestamp := None |}
              (Subscription.new_monitored_data "ns=2;s=Temperature" "Temperature")
              (Subscription.Int32 42%Z) eq_refl eq_refl) as [x [Hx Hh]].
  rewrite Hh. simpl in Hx. injection Hx as <-. reflexivity.
Defined.

(* ------------------------------------------------------------------ *)
(** ** Address-space crawler *)
(* ------------------------------------------------------------------ *)

Module CrawlFacts.
Import Crawler.

Section Crawl.

Variable browse : string -> option (list BrowsedNode).
Variable config : CrawlConfig.

Local Abbreviation children_loop := (crawl_children config).
Local Abbreviation at_fuel := (crawl_at browse config).
Local Abbreviation M := (max_nodes config).

Lemma crawl_children_ext (r1 r2 : string -> nat -> CrawlState -> CrawlState) depth :
  (forall n st, r1 n (S depth) st = r2 n (S depth) st) ->
  forall cs st, children_loop r1 depth cs st = children_loop r2 depth cs st.
Proof.
  intros Hr cs. induction cs as [|c cs IH]; intros st; simpl; [reflexivity|].
  destruct (has_children c); [rewrite Hr|]; destruct (Nat.leb _ _); auto.
Qed.

(** [crawl_recursive] satisfies the equation of the Rust function. *)
Lemma crawl_recursive_eq nid depth st :
  crawl_recursive browse config nid depth st =
  if Nat.leb (max_depth config) depth then st
  else if bool_decide (nid ∈ visited st) then st
  else
    match browse nid with
    | Some children =>
        children_loop (crawl_recursive browse config) depth children (mark_visited nid st)
    | None => mark_visited nid st
    end.
Proof.
  unfold crawl_recursive.
  destruct (Nat.leb_spec (max_depth config) depth) as [Hle|Hlt].
  - replace (max_depth config - depth) with 0 by lia. reflexivity.
  - replace (max_depth config - depth) with (S (max_depth config - S depth)) by lia.
    simpl. destruct (bool_decide _); [reflexivity|].
    destruct (browse nid); [|reflexivity].
    apply crawl_children_ext. intros n st'. reflexivity.
Qed.

Lemma crawl_children_prefix (r : string -> nat -> CrawlState -> CrawlState) depth :
  (forall n st, exists l, results (r n (S depth) st) = results st ++ l) ->
  forall cs st, exists l, results (children_loop r depth cs st) = results st ++ l.
Proof.
  intros Hr cs. induction cs as [|c cs IH]; intros st; simpl.
  - exists []. by rewrite app_nil_r.
  - set (st1 := push_result c st).
    assert (H1 : exists l, results (if has_children c then r (node_id c) (S depth) st1 else st1)
                           = results st ++ l).
    { destruct (has_children c).
      - destruct (Hr (node_id c) st1) as [l Hl]. exists ([c] ++ l).
        rewrite Hl. simpl. by rewrite <- app_assoc.
      - exists [c]. reflexivity. }
    destruct H1 as [l1 Hl1].
    destruct (Nat.leb _ _); [eauto|].
    destruct (IH (if has_children c then r (node_id c) (S depth) st1 else st1)) as [l2 Hl2].
    exists (l1 ++ l2). rewrite Hl2, Hl1. by rewrite <- app_assoc.
Qed.

Lemma crawl_at_prefix :
  forall fuel nid depth st, exists l, results (at_fuel fuel nid depth st) = results st ++ l.
Proof.
  induction fuel as [|f IH]; intros nid depth st; simpl.
  - exists []. by rewrite app_nil_r.
  - destruct (bool_decide _); [exists []; by rewrite app_nil_r|].
    destruct (browse nid) as [children|]; [|exists []; by rewrite app_nil_r].
    destruct (crawl_children_prefix (at_fuel f) depth (fun n st => IH n (S depth) st)
                children (mark_visited nid st)) as [l Hl].
    exists l. exact Hl.
Qed.

Lemma crawl_at_grows fuel nid depth st :
  length (results st) <= length (results (at_fuel fuel nid depth st)).
Proof.
  destruct (crawl_at_prefix fuel nid depth st) as [l Hl]. rewrite Hl, length_app. lia.
Qed.

(** Overshoot bound for one level: once the result list has reached
    [max_nodes], a call with [fuel] levels left adds at most one node per
    level; below [max_nodes], the list ends at most [fuel - 1] past it. *)
Lemma crawl_at_bound :
  forall fuel nid depth st,
  (M <= length (results st) ->
   length (results (at_fuel fuel nid depth st)) <= length (results st) + fuel)
  /\ (length (results st) < M ->
      length (results (at_fuel fuel nid depth st)) <= M + fuel - 1).
Proof.
  induction fuel as [|f IH]; intros nid depth st.
  - simpl. lia.
  - simpl. destruct (bool_decide _); [lia|].
    destruct (browse nid) as [children|]; [|simpl; lia].
    change (length (results st)) with (length (results (mark_visited nid st))).
    generalize (mark_visited nid st) as st0. clear st.
    induction children as [|c cs IHcs]; intros st0; simpl; [lia|].
    set (st1 := push_result c st0).
    assert (Hlen1 : length (results st1) = S (length (results st0)))
      by (simpl; rewrite length_app; simpl; lia).
    set (st2 := if has_children c then at_fuel f (node_id c) (S depth) st1 else st1).
    assert (Hgrow : length (results st1) <= length (results st2)).
    { unfold st2. destruct (has_children c); [apply crawl_at_grows | lia]. }
    assert (Hup : M <= length (results st1) ->
                  length (results st2) <= length (results st1) + f).
    { intros HM. unfold st2. destruct (has_children c); [apply (proj1 (IH _ _ _) HM) | lia]. }
    assert (Hlow : length (results st1) < M -> length (results st2) <= M + f - 1).
    { intros HM. unfold st2. destruct (has_children c); [apply (proj2 (IH _ _ _) HM) | lia]. }
    fold st2.
    destruct (Nat.leb_spec M (length (results st2))) as [Hstop|Hgo].
    + split; intros HM.
      * specialize (Hup ltac:(lia)). lia.
      * destruct (Nat.eq_dec (length (results st1)) M) as [Heq|Hne].
        -- specialize (Hup ltac:(lia)). lia.
        -- specialize (Hlow ltac:(lia)). lia.
    + split; intros HM.
      * lia.
      * destruct (IHcs st2) as [_ Hrec]. specialize (Hrec Hgo). lia.
Qed.

Lemma crawl_children_preserves (P : CrawlState -> Prop)
    (r : string -> nat -> CrawlState -> CrawlState) depth children :
  (forall c st, In c children -> P st -> P (push_result c st)) ->
  (forall c st, In c children -> P st -> P (r (node_id c) (S depth) st)) ->
  forall st, P st -> P (children_loop r depth children st).
Proof.
  intros Hpush Hrec. induction children as [|c cs IH]; intros st Hst; simpl; [exact Hst|].
  assert (H1 : P (if has_children c then r (node_id c) (S depth) (push_result c st)
                  else push_result c st)).
  { assert (P (push_result c st)) by (apply Hpush; [left|]; auto).
    destruct (has_children c); [apply Hrec; [left|]|]; auto. }
  destruct (Nat.leb _ _); [exact H1|].
  apply IH; [| |exact H1].
  - intros c' st' Hc' HP. apply Hpush; [right|]; auto.
  - intros c' st' Hc' HP. apply Hrec; [right|]; auto.
Qed.

Local Abbreviation D := (max_depth config).
Local Abbreviation root := (start_node config).

Lemma crawl_at_inv :
  forall fuel nid depth st,
  reaches browse root nid depth -> depth + fuel <= D ->
  crawl_inv browse config st -> crawl_inv browse config (at_fuel fuel nid depth st).
Proof.
  induction fuel as [|f IH]; intros nid depth st Hr Hd Hst; simpl; [exact Hst|].
  case_bool_decide as Hin; [exact Hst|].
  destruct Hst as (Hnd & Hv & Hres).
  assert (Hm : crawl_inv browse config (mark_visited nid st)).
  { split; [|split]; simpl.
    - apply NoDup_app. split; [exact Hnd|]. split; [|apply NoDup_singleton].
      intros x Hx Hx'. apply list_elem_of_singleton in Hx'. subst. contradiction.
    - intros x Hx. apply in_app_or in Hx as [Hx|[<-|[]]]; [apply Hv, Hx|].
      exists depth. split; [lia|exact Hr].
    - exact Hres. }
  destruct (browse nid) as [children|] eqn:Hb; [|exact Hm].
  apply crawl_children_preserves; [..|exact Hm].
  - intros c st' Hc (Hnd' & Hv' & Hres'). split; [|split]; simpl; auto.
    intros c' Hc'. apply in_app_or in Hc' as [Hc'|[<-|[]]]; [apply Hres', Hc'|].
    exists (S depth). split; [lia|]. eapply reaches_child; eauto.
  - intros c st' Hc Hst'. apply IH; [|lia|exact Hst'].
    eapply reaches_child; eauto.
Qed.

Lemma crawl_recursive_inv :
  crawl_inv browse config (crawl_recursive browse config root 0 {| visited := []; results := [] |}).
Proof.
  unfold crawl_recursive. apply crawl_at_inv; [constructor|lia|].
  split; [constructor|split; intros ? []].
Qed.

End Crawl.

End CrawlFacts.

(** Claim C2 (as stated, refuted): the overshoot past [max_nodes] is not
    limited to one sibling. The check runs after the recursive call into a
    child, and the entry check of [crawl_recursive] is disabled, so every
    nested level adds its first child before any level stops: on a chain of
    three containers with [max_nodes = 1] and [max_depth = 3] the crawl
    returns three nodes. *)
Lemma crawl_overshoot_not_one_sibling :
  ~ (forall browse config,
       length (Crawler.crawl browse config) <= Crawler.max_nodes config + 1).
Proof.
  intros H. specialize (H CrawlInputs.chain_browse CrawlInputs.chain_config).
  vm_compute in H. lia.
Qed.

(** Claim C2 (amended): the result list of [crawl] has at most
    [max (max_nodes, 1) + max_depth - 1] nodes: past [max_nodes], each
    nesting level below the top one can add one more node. *)
Theorem crawl_size_bound browse config :
  length (Crawler.crawl browse config)
  <= Nat.max (Crawler.max_nodes config) 1 + Crawler.max_depth config - 1.
Proof.
  unfold Crawler.crawl, Crawler.crawl_recursive. rewrite Nat.sub_0_r.
  destruct (CrawlFacts.crawl_at_bound browse config (Crawler.max_depth config)
              (Crawler.start_node config) 0 {| Crawler.visited := []; Crawler.results := [] |})
    as [H0 H1].
  simpl in H0, H1. destruct (Crawler.max_nodes config) as [|m].
  - specialize (H0 ltac:(lia)). lia.
  - specialize (H1 ltac:(lia)). lia.
Qed.

(** Claim C3: a crawl browses each node identifier at most once (the
    visited list, which records every browsed node, has no duplicate),
    browses only nodes reached from [start_node] in fewer than [max_depth]
    browse steps, and returns only nodes reached in 1 to [max_depth] steps.
    The crawl is a total function, also on cyclic graphs. *)
Theorem crawl_depth_bounded browse config :
  let st := Crawler.crawl_recursive browse config (Crawler.start_node config) 0
              {| Crawler.visited := []; Crawler.results := [] |} in
  NoDup (Crawler.visited st)
  /\ (forall x, In x (Crawler.visited st) ->
        exists k, k < Crawler.max_depth config
                  /\ Crawler.reaches browse (Crawler.start_node config) x k)
  /\ (forall c, In c (Crawler.crawl browse config) ->
        exists k, 1 <= k <= Crawler.max_depth config
                  /\ Crawler.reaches browse (Crawler.start_node config) (Crawler.node_id c) k).
Proof.
  exact (CrawlFacts.crawl_recursive_inv browse config).
Qed.

(* ------------------------------------------------------------------ *)
(** ** Diagnostic pipeline: [run_diagnostic] *)
(* ------------------------------------------------------------------ *)

Module PipelineFacts.
Import Diagnostics Pipeline.

Lemma scan_ports_closed net is_cancelled i host ports acc :
  Forall (fun p => tcp_connect net (socket_addr host p) = false) ports ->
  Forall (fun x => is_open x = false) acc ->
  Forall (fun x => is_open x = false) (fst (scan_ports net is_cancelled i host ports acc)).
Proof.
  revert i acc. induction ports as [|p ps IH]; intros i acc Hp Hacc; simpl; [exact Hacc|].
  inversion Hp as [|? ? Hp0 Hps]; subst.
  destruct (is_cancelled i); [exact Hacc|].
  apply IH; [exact Hps|]. apply Forall_app. split; [exact Hacc|].
  constructor; [exact Hp0|constructor].
Qed.

Lemma open_count_closed ps :
  Forall (fun x => is_open x = false) ps -> open_count ps = 0.
Proof.
  unfold open_count. induction 1 as [|x xs Hx _ IH]; [reflexivity|].
  rewrite filter_cons_False; [exact IH|]. rewrite Hx. discriminate.
Qed.

Lemma discover_loop_spec net is_cancelled parsed ports :
  forall i r, let r' := discover_loop net is_cancelled i parsed ports r in
  steps r' = steps r /\ open_ports r' = open_ports r
  /\ ((overall_success r' = overall_success r /\ endpoints r' = endpoints r
       /\ recommended_url r' = recommended_url r
       /\ ((forall j, is_cancelled j = false) -> Forall (no_endpoints net parsed) ports))
      \/ (overall_success r' = true
          /\ exists pre pr post e es, ports = pre ++ pr :: post
             /\ Forall (no_endpoints net parsed) pre
             /\ discover_endpoints net (to_url parsed (scan_port pr)) = Some (e :: es)
             /\ endpoints r' = e :: es /\ recommended_url r' = Some (endpoint_url e))).
Proof.
  induction ports as [|pr ps IH]; intros i r r'; subst r'; simpl.
  - split; [|split]; [reflexivity..|]. left. repeat split; constructor.
  - destruct (is_cancelled i) eqn:Hc.
    + split; [|split]; [reflexivity..|]. left. repeat split.
      intros Hnever. rewrite Hnever in Hc. discriminate.
    + destruct (discover_endpoints net (to_url parsed (scan_port pr))) as [[|e es]|] eqn:Hd.
      * destruct (IH (S i) r) as (Hs & Ho & [(Hov & He & Hrec & Hall)|(Hov & pre & pr' & post & e & es & Hps & Hpre & Hd' & He & Hrec)]);
          (split; [|split]; [assumption..|]).
        -- left. repeat split; try assumption. intros Hnever. constructor; [|apply Hall, Hnever].
           intros es' Hes'. rewrite Hd in Hes'. congruence.
        -- right. split; [assumption|]. exists (pr :: pre), pr', post, e, es.
           split; [rewrite Hps; reflexivity|]. split; [constructor; [|assumption]|].
           2: { repeat split; assumption. }
           intros es' Hes'. rewrite Hd in Hes'. congruence.
      * split; [|split]; [reflexivity..|]. right. split; [reflexivity|].
        exists [], pr, ps, e, es. repeat split; [constructor|assumption].
      * destruct (IH (S i) r) as (Hs & Ho & [(Hov & He & Hrec & Hall)|(Hov & pre & pr' & post & e & es & Hps & Hpre & Hd' & He & Hrec)]);
          (split; [|split]; [assumption..|]).
        -- left. repeat split; try assumption. intros Hnever. constructor; [|apply Hall, Hnever].
           intros es' Hes'. rewrite Hd in Hes'. congruence.
        -- right. split; [assumption|]. exists (pr :: pre), pr', post, e, es.
           split; [rewrite Hps; reflexivity|]. split; [constructor; [|assumption]|].
           2: { repeat split; assumption. }
           intros es' Hes'. rewrite Hd in Hes'. congruence.
Qed.

End PipelineFacts.

(** Claim C4: [run_diagnostic] stops at the first failing stage among
    validation, name resolution and the port scan, returning the steps run
    so far with the failing one [Failed] and [overall_success] false; when
    every candidate port is closed, the last step is a failed [ScanPorts]
    and no [DiscoverEndpoints] step is run. The token [is_cancelled] is
    queried at indices 0 and 1 before name resolution and the scan; the
    statements assume it was not set there, so that these stages run. *)
Theorem run_diagnostic_fail_fast net is_cancelled input :
  let parsed := Diagnostics.parse_user_input input in
  let r := Pipeline.run_diagnostic net is_cancelled input in
  let step i s := {| Pipeline.step_id := i; Pipeline.status := s |} in
  (Diagnostics.is_valid parsed = false ->
     Pipeline.steps r = [step Pipeline.ValidateInput Pipeline.Failed]
     /\ Pipeline.overall_success r = false)
  /\ (Diagnostics.is_valid parsed = true -> is_cancelled 0 = false ->
      (forall ip rest, Pipeline.resolve net (Diagnostics.host parsed ++ lit ":4840")
                       <> Some (ip :: rest)) ->
      Pipeline.steps r = [step Pipeline.ValidateInput Pipeline.Success;
                          step Pipeline.ResolveDns Pipeline.Failed]
      /\ Pipeline.overall_success r = false)
  /\ (forall ip rest,
      Diagnostics.is_valid parsed = true -> is_cancelled 0 = false ->
      Pipeline.resolve net (Diagnostics.host parsed ++ lit ":4840") = Some (ip :: rest) ->
      is_cancelled 1 = false ->
      Pipeline.open_count
        (fst (Pipeline.scan_ports net is_cancelled 2 ip (Pipeline.ports_to_scan parsed) [])) = 0 ->
      Pipeline.steps r = [step Pipeline.ValidateInput Pipeline.Success;
                          step Pipeline.ResolveDns Pipeline.Success;
                          step Pipeline.ScanPorts Pipeline.Failed]
      /\ Pipeline.overall_success r = false)
  /\ (forall ip rest,
      Diagnostics.is_valid parsed = true -> is_cancelled 0 = false ->
      Pipeline.resolve net (Diagnostics.host parsed ++ lit ":4840") = Some (ip :: rest) ->
      is_cancelled 1 = false ->
      Forall (fun p => Pipeline.tcp_connect net (Pipeline.socket_addr ip p) = false)
        (Pipeline.ports_to_scan parsed) ->
      last (Pipeline.steps r) = Some (step Pipeline.ScanPorts Pipeline.Failed)
      /\ Pipeline.overall_success r = false
      /\ ~ In Pipeline.DiscoverEndpoints (map Pipeline.step_id (Pipeline.steps r))).
Proof.
  intros parsed r step. subst r.
  assert (Hscan : forall ip rest,
      Diagnostics.is_valid parsed = true -> is_cancelled 0 = false ->
      Pipeline.resolve net (Diagnostics.host parsed ++ lit ":4840") = Some (ip :: rest) ->
      is_cancelled 1 = false ->
      Pipeline.open_count
        (fst (Pipeline.scan_ports net is_cancelled 2 ip (Pipeline.ports_to_scan parsed) [])) = 0 ->
      Pipeline.steps (Pipeline.run_diagnostic net is_cancelled input)
        = [step Pipeline.ValidateInput Pipeline.Success;
           step Pipeline.ResolveDns Pipeline.Success;
           step Pipeline.ScanPorts Pipeline.Failed]
      /\ Pipeline.overall_success (Pipeline.run_diagnostic net is_cancelled input) = false).
  { intros ip rest Hv Hc0 Hres Hc1 Hopen. unfold Pipeline.run_diagnostic. subst parsed.
    rewrite Hv, Hc0. simpl negb. cbv iota beta zeta. rewrite Hres, Hc1.
    destruct (Pipeline.scan_ports _ _ _ _ _ _) as [scanned i] eqn:Hs.
    simpl in Hopen. simpl. rewrite Hopen. split; reflexivity. }
  split; [|split; [|split]].
  - intros Hv. unfold Pipeline.run_diagnostic. subst parsed. rewrite Hv. split; reflexivity.
  - intros Hv Hc0 Hres. unfold Pipeline.run_diagnostic. subst parsed.
    rewrite Hv, Hc0. simpl negb. cbv iota beta zeta.
    destruct (Pipeline.resolve net _) as [[|ip rest]|] eqn:Hr.
    + split; reflexivity.
    + exfalso. exact (Hres ip rest eq_refl).
    + split; reflexivity.
  - exact Hscan.
  - intros ip rest Hv Hc0 Hres Hc1 Hclosed.
    destruct (Hscan ip rest Hv Hc0 Hres Hc1) as [Hsteps Hov].
    { apply PipelineFacts.open_count_closed, PipelineFacts.scan_ports_closed;
        [exact Hclosed|constructor]. }
    rewrite Hsteps. split; [reflexivity|]. split; [exact Hov|].
    simpl. intros [H|[H|[H|[]]]]; discriminate H.
Qed.

Lemma run_diagnostic_fail_fast_witness :
  Diagnostics.is_valid (Diagnostics.parse_user_input DiagInputs.input_with_port) = true
  /\ Forall (fun p => Pipeline.tcp_connect DiagInputs.closed_net
                        (Pipeline.socket_addr (lit "10.0.0.1") p) = false)
       (Pipeline.ports_to_scan (Diagnostics.parse_user_input DiagInputs.input_with_port))
  /\ last (Pipeline.steps (Pipeline.run_diagnostic DiagInputs.closed_net
                             DiagInputs.never_cancelled DiagInputs.input_with_port))
     = Some {| Pipeline.step_id := Pipeline.ScanPorts; Pipeline.status := Pipeline.Failed |}.
Proof.
  assert (Hv : Diagnostics.is_valid (Diagnostics.parse_user_input DiagInputs.input_with_port) = true)
    by (vm_compute; reflexivity).
  assert (Hf : Forall (fun p => Pipeline.tcp_connect DiagInputs.closed_net
                                  (Pipeline.socket_addr (lit "10.0.0.1") p) = false)
                 (Pipeline.ports_to_scan (Diagnostics.parse_user_input DiagInputs.input_with_port)))
    by (apply Forall_forall; intros; reflexivity).
  split; [exact Hv|]. split; [exact Hf|].
  destruct (run_diagnostic_fail_fast DiagInputs.closed_net DiagInputs.never_cancelled
              DiagInputs.input_with_port) as (_ & _ & _ & H4).
  exact (proj1 (H4 (lit "10.0.0.1") [] Hv eq_refl eq_refl eq_refl Hf)).
Defined.

(** Claim C5 (as stated, refuted): the discovery loop also queries the
    cancellation token before each port, so a run whose token is set during
    discovery ends with a [Warning] step and [overall_success] false even
    though an open port yields endpoints. *)
Lemma discovery_may_skip_yielding_port :
  ~ (forall net is_cancelled input,
       let r := Pipeline.run_diagnostic net is_cancelled input in
       In Pipeline.DiscoverEndpoints (map Pipeline.step_id (Pipeline.steps r)) ->
       (exists pr es, In pr (filter (fun p => Pipeline.is_open p = true) (Pipeline.open_ports r))
          /\ Pipeline.discover_endpoints net
               (Diagnostics.to_url (Diagnostics.parse_user_input input) (Pipeline.scan_port pr))
             = Some es
          /\ es <> []) ->
       Pipeline.overall_success r = true).
Proof.
  intros H.
  enough (Ht : Pipeline.overall_success
                 (Pipeline.run_diagnostic DiagInputs.serving_net (DiagInputs.cancelled_from 4)
                    DiagInputs.input_with_port) = true)
    by (vm_compute in Ht; discriminate Ht).
  apply H.
  - vm_compute. intuition.
  - exists {| Pipeline.scan_port := 4840; Pipeline.is_open := true |}, [DiagInputs.sample_endpoint].
    split; [vm_compute; intuition|]. split; [reflexivity|discriminate].
Qed.

(** Claim C5 (amended): when [run_diagnostic] reaches the
    [DiscoverEndpoints] step, either the run succeeded at the first open
    port, in scan order, whose discovery yields a non-empty list, all
    earlier open ports yielding none, with [endpoints] that list and
    [recommended_url] its first endpoint's URL, and the step is [Success];
    or the step is a [Warning], [overall_success] is false, no endpoint is
    recorded, and, when the token is never set, no open port yields
    endpoints. *)
Theorem discover_first_yielding net is_cancelled input :
  let parsed := Diagnostics.parse_user_input input in
  let r := Pipeline.run_diagnostic net is_cancelled input in
  let opens := filter (fun p => Pipeline.is_open p = true) (Pipeline.open_ports r) in
  In Pipeline.DiscoverEndpoints (map Pipeline.step_id (Pipeline.steps r)) ->
  (Pipeline.overall_success r = true
   /\ last (Pipeline.steps r)
      = Some {| Pipeline.step_id := Pipeline.DiscoverEndpoints; Pipeline.status := Pipeline.Success |}
   /\ exists pre pr post e es, opens = pre ++ pr :: post
        /\ Forall (Pipeline.no_endpoints net parsed) pre
        /\ Pipeline.discover_endpoints net (Diagnostics.to_url parsed (Pipeline.scan_port pr))
           = Some (e :: es)
        /\ Pipeline.endpoints r = e :: es
        /\ Pipeline.recommended_url r = Some (Pipeline.endpoint_url e))
  \/ (Pipeline.overall_success r = false
      /\ last (Pipeline.steps r)
         = Some {| Pipeline.step_id := Pipeline.DiscoverEndpoints; Pipeline.status := Pipeline.Warning |}
      /\ Pipeline.endpoints r = [] /\ Pipeline.recommended_url r = None
      /\ ((forall j, is_cancelled j = false) -> Forall (Pipeline.no_endpoints net parsed) opens)).
Proof.
  intros parsed r opens HDE. subst r opens. unfold Pipeline.run_diagnostic in *.
  fold parsed in HDE |- *.
  destruct (negb (Diagnostics.is_valid parsed)).
  { simpl in HDE. intuition discriminate. }
  destruct (is_cancelled 0).
  { simpl in HDE. intuition discriminate. }
  destruct (Pipeline.resolve net _) as [[|ip rest]|];
    [simpl in HDE; intuition discriminate| |simpl in HDE; intuition discriminate].
  destruct (is_cancelled 1).
  { simpl in HDE. intuition discriminate. }
  destruct (Pipeline.scan_ports _ _ _ _ _ _) as [scanned i].
  destruct (Nat.eqb _ 0).
  { simpl in HDE. intuition discriminate. }
  destruct (is_cancelled i).
  { simpl in HDE. intuition discriminate. }
  clear HDE.
  match goal with
  | |- context [Pipeline.discover_loop net is_cancelled (S i) parsed ?ps ?r0] =>
      destruct (PipelineFacts.discover_loop_spec net is_cancelled parsed ps (S i) r0)
        as (Hs & Ho & [(Hov & He & Hrec & Hall)|(Hov & pre & pr & post & e & es & Hps & Hpre & Hd & He & Hrec)]);
      set (r1 := Pipeline.discover_loop net is_cancelled (S i) parsed ps r0) in *
  end.
  - right. assert (Hf : Pipeline.overall_success r1 = false) by (rewrite Hov; reflexivity).
    rewrite Hf. simpl. rewrite ?Hs, ?He, ?Hrec, ?Ho. simpl.
    split; [exact Hf|]. split; [reflexivity|]. split; [reflexivity|]. split; [reflexivity|].
    exact Hall.
  - left. rewrite Hov. simpl. rewrite ?Hs, ?Ho. simpl.
    split; [exact Hov|]. split; [reflexivity|].
    exists pre, pr, post, e, es. auto.
Qed.

Lemma discover_first_yielding_witness :
  In Pipeline.DiscoverEndpoints
     (map Pipeline.step_id (Pipeline.steps
        (Pipeline.run_diagnostic DiagInputs.serving_net DiagInputs.never_cancelled
           DiagInputs.input_with_port)))
  /\ Pipeline.recommended_url
       (Pipeline.run_diagnostic DiagInputs.serving_net DiagInputs.never_cancelled
          DiagInputs.input_with_port)
     = Some (Pipeline.endpoint_url DiagInputs.sample_endpoint).
Proof.
  assert (Hin : In Pipeline.DiscoverEndpoints
     (map Pipeline.step_id (Pipeline.steps
        (Pipeline.run_diagnostic DiagInputs.serving_net DiagInputs.never_cancelled
           DiagInputs.input_with_port)))) by (vm_compute; intuition).
  split; [exact Hin|].
  destruct (discover_first_yielding DiagInputs.serving_net DiagInputs.never_cancelled
              DiagInputs.input_with_port Hin)
    as [(_ & _ & pre & pr & post & e & es & _ & _ & Hd & _ & Hrec)
       |(Hov & _)].
  - rewrite Hrec. simpl in Hd. injection Hd as <- _. reflexivity.
  - vm_compute in Hov. discriminate Hov.
Defined.

(* ------------------------------------------------------------------ *)
(** ** Input parsing: [parse_user_input] and [to_url] *)
(* ------------------------------------------------------------------ *)

Module ParseFacts.
Import Diagnostics.
Local Open Scope char_scope.

Lemma strip_prefix_app p y : strip_prefix p (p ++ y) = Some y.
Proof. induction p as [|c p IH]; simpl; [reflexivity|]. rewrite Ascii.eqb_refl. exact IH. Qed.

Lemma strip_prefix_some p s r : strip_prefix p s = Some r -> s = p ++ r.
Proof.
  revert s. induction p as [|c p IH]; intros [|d s]; simpl; try congruence.
  destruct (Ascii.eqb_spec c d) as [<-|]; [|discriminate].
  intros H. rewrite (IH s H). reflexivity.
Qed.

Lemma split_first_notin c l : ~ In c l -> split_first c l = l.
Proof.
  induction l as [|d l IH]; intros Hn; simpl; [reflexivity|].
  destruct (Ascii.eqb_spec c d) as [->|]; [exfalso; apply Hn; left; reflexivity|].
  rewrite IH; [reflexivity|]. intros H. apply Hn. right. exact H.
Qed.

Lemma split_first_excludes c l : ~ In c (split_first c l).
Proof.
  induction l as [|d l IH]; simpl; [auto|].
  destruct (Ascii.eqb_spec c d); simpl; [auto|]. intros [H|H]; [congruence|auto].
Qed.

Lemma split_last_none c l : ~ In c l -> split_last c l = None.
Proof.
  induction l as [|d l IH]; intros Hn; simpl; [reflexivity|].
  rewrite IH by (intros H; apply Hn; right; exact H).
  destruct (Ascii.eqb_spec c d) as [->|]; [exfalso; apply Hn; left; reflexivity|reflexivity].
Qed.

Lemma split_last_app c l r : ~ In c r -> split_last c (l ++ c :: r) = Some (l, r).
Proof.
  intros Hn. induction l as [|d l IH]; simpl.
  - rewrite split_last_none by exact Hn. rewrite Ascii.eqb_refl. reflexivity.
  - rewrite IH. reflexivity.
Qed.

Lemma split_last_some c s b a : split_last c s = Some (b, a) -> s = b ++ c :: a.
Proof.
  revert b a. induction s as [|d s IH]; intros b a; simpl; [discriminate|].
  destruct (split_last c s) as [[b' a']|] eqn:E.
  - intros [= <- <-]. rewrite (IH _ _ eq_refl). reflexivity.
  - destruct (Ascii.eqb_spec c d) as [<-|]; [intros [= <- <-]; reflexivity|discriminate].
Qed.

Lemma find_some c l i :
  find c l = Some i ->
  i < length l /\ find c (take (S i) l) = Some i /\ (forall r, find c (l ++ r) = Some i).
Proof.
  revert i. induction l as [|d l IH]; intros i; simpl; [discriminate|].
  destruct (Ascii.eqb_spec c d) as [<-|Hne].
  - intros [= <-]. simpl. split; [lia|]. auto.
  - destruct (find c l) as [j|] eqn:E; simpl; [|discriminate].
    intros [= <-]. destruct (IH j eq_refl) as (H1 & H2 & H3).
    assert (Hf : Ascii.eqb c d = false) by (apply Ascii.eqb_neq; exact Hne).
    split; [lia|]. simpl. rewrite ?Hf, H2. split; [reflexivity|].
    intros r. rewrite H3. reflexivity.
Qed.

Lemma contains_eq pat s :
  contains pat s =
  match strip_prefix pat s with
  | Some _ => true
  | None => match s with [] => false | _ :: s' => contains pat s' end
  end.
Proof. destruct s; reflexivity. Qed.

Lemma contains_app pat a b : contains pat (a ++ pat ++ b) = true.
Proof.
  induction a as [|x a IH]; rewrite contains_eq.
  - rewrite app_nil_l, strip_prefix_app. reflexivity.
  - destruct (strip_prefix _ _); [reflexivity|]. simpl. exact IH.
Qed.

Lemma trim_start_nonws c l : is_whitespace c = false -> trim_start (c :: l) = c :: l.
Proof. intros H. simpl. rewrite H. reflexivity. Qed.

Lemma trim_end_nonws l d : is_whitespace d = false -> trim_end (l ++ [d]) = l ++ [d].
Proof.
  intros H. unfold trim_end. rewrite rev_unit. rewrite trim_start_nonws by exact H.
  rewrite <- rev_unit, rev_involutive. reflexivity.
Qed.

Lemma trim_start_app x y :
  trim_start (x ++ y) = match trim_start x with [] => trim_start y | z => z ++ y end.
Proof.
  induction x as [|c x IH]; simpl; [reflexivity|].
  destruct (is_whitespace c); [exact IH|reflexivity].
Qed.

Lemma ports_text_ok_spec n p0 p :
  ports_text_ok n p0 = true -> (p0 <= p < p0 + N.of_nat n)%N -> port_text_ok p = true.
Proof.
  revert p0. induction n as [|n IH]; intros p0 Hn Hp; simpl in *; [lia|].
  apply andb_prop in Hn as [H0 Hn].
  destruct (N.eq_dec p p0) as [->|Hne]; [exact H0|].
  apply (IH (N.succ p0) Hn). lia.
Qed.

(** Decimal printing and parsing of a port agree on the whole [u16]
    range, checked exhaustively. *)
Lemma show_u16_ok p :
  (p < 65536)%N ->
  show_u16 p <> []
  /\ (forall c, In c (show_u16 p) -> is_whitespace c = false /\ c <> ":" /\ c <> "/")
  /\ parse_u16 (show_u16 p) = Some p.
Proof.
  intros Hp.
  assert (Hall : ports_text_ok 65536 0 = true) by (vm_compute; reflexivity).
  assert (E : N.of_nat 65536 = 65536%N) by (vm_compute; reflexivity).
  pose proof (ports_text_ok_spec 65536 0 p Hall ltac:(rewrite E; lia)) as Ht.
  unfold port_text_ok in Ht.
  apply andb_prop in Ht as [Ht Hparse]. apply andb_prop in Ht as [Hlen Hchars].
  split; [|split].
  - intros Hnil. rewrite Hnil in Hlen. discriminate.
  - intros c Hc. rewrite forallb_forall in Hchars. specialize (Hchars c Hc).
    apply andb_prop in Hchars as [Hc1 Hc3]. apply andb_prop in Hc1 as [Hc1 Hc2].
    apply negb_true_iff in Hc1, Hc2, Hc3.
    split; [exact Hc1|]. split; apply Ascii.eqb_neq; assumption.
  - destruct (parse_u16 (show_u16 p)) as [q|]; [|discriminate].
    apply N.eqb_eq in Hparse. subst. reflexivity.
Qed.

Lemma push_error_nonempty e r : errors (push_error e r) <> [].
Proof. simpl. destruct (errors r); discriminate. Qed.

Lemma parse_host_port_valid r0 hp :
  ~ In "/" hp ->
  errors (parse_host_port r0 hp) = [] ->
  ~ In "/" (host (parse_host_port r0 hp))
  /\ (host (parse_host_port r0 hp) <> [] ->
      starts_with "[" (host (parse_host_port r0 hp)) = true ->
      find "]" (host (parse_host_port r0 hp))
      = Some (pred (length (host (parse_host_port r0 hp))))).
Proof.
  intros Hn He. unfold parse_host_port in *.
  destruct (starts_with "[" hp) eqn:Hsw.
  - destruct (find "]" hp) as [be|] eqn:Hf; [|exfalso; exact (push_error_nonempty _ _ He)].
    destruct (find_some _ _ _ Hf) as (Hlt & Htake & _).
    assert (Hgoal : ~ In "/" (take (S be) hp)
                    /\ (take (S be) hp <> [] -> starts_with "[" (take (S be) hp) = true ->
                        find "]" (take (S be) hp) = Some (pred (length (take (S be) hp))))).
    { split.
      - intros H. apply Hn. rewrite <- (take_drop (S be) hp). apply in_or_app. left. exact H.
      - intros _ _. rewrite Htake, length_take. f_equal. lia. }
    destruct (strip_prefix _ _) as [ps|]; [destruct (parse_u16 ps)|]; exact Hgoal.
  - unfold rsplitn2 in *. destruct (split_last ":" hp) as [[b a]|] eqn:Hs.
    + apply split_last_some in Hs. destruct (parse_u16 a); simpl.
      * split.
        -- intros H. apply Hn. rewrite Hs. apply in_or_app. left. exact H.
        -- intros Hb Hb'. destruct b as [|x b]; [congruence|].
           rewrite Hs in Hsw. simpl in Hb', Hsw. congruence.
      * split; [exact Hn|]. intros _ H. congruence.
    + simpl. split; [exact Hn|]. intros _ H. congruence.
Qed.

(** The host of a valid parse is non-empty, has no ['/'], and, when it
    starts with ['['], its first [']'] is its last character. *)
Lemma parse_valid_host s :
  is_valid (parse_user_input s) = true ->
  errors (parse_user_input s) = []
  /\ host (parse_user_input s) <> []
  /\ ~ In "/" (host (parse_user_input s))
  /\ (starts_with "[" (host (parse_user_input s)) = true ->
      find "]" (host (parse_user_input s)) = Some (pred (length (host (parse_user_input s))))).
Proof.
  intros Hv.
  assert (Hv' : errors (parse_user_input s) = [] /\ host (parse_user_input s) <> []).
  { unfold is_valid in Hv.
    destruct (errors _) eqn:E1; [|discriminate]. destruct (host _) eqn:E2; [discriminate|].
    split; [reflexivity|discriminate]. }
  destruct Hv' as [He Hh]. split; [exact He|]. split; [exact Hh|].
  revert He Hh. unfold parse_user_input. cbv zeta.
  destruct (trim s) as [|c t]; [intros He; exfalso; exact (push_error_nonempty _ _ He)|].
  assert (Hfin : forall r0 ws,
    let r := parse_host_port r0 (split_first "/" ws) in
    errors (match host r with [] => push_error (lit "Host cannot be empty") r | _ :: _ => r end) = [] ->
    host (match host r with [] => push_error (lit "Host cannot be empty") r | _ :: _ => r end) <> [] ->
    ~ In "/" (host (match host r with [] => push_error (lit "Host cannot be empty") r | _ :: _ => r end))
    /\ (starts_with "[" (host (match host r with [] => push_error (lit "Host cannot be empty") r | _ :: _ => r end)) = true ->
        find "]" (host (match host r with [] => push_error (lit "Host cannot be empty") r | _ :: _ => r end))
        = Some (pred (length (host (match host r with [] => push_error (lit "Host cannot be empty") r | _ :: _ => r end)))))).
  { intros r0 ws r He Hh.
    destruct (host r) as [|x h] eqn:Eh; [exfalso; exact (push_error_nonempty _ _ He)|].
    destruct (parse_host_port_valid r0 (split_first "/" ws) (split_first_excludes _ _) He)
      as [H1 H2].
    fold r in H1, H2. rewrite Eh in H1, H2. rewrite Eh.
    split; [exact H1|]. apply H2. discriminate. }
  destruct (strip_prefix _ _) as [rest|]; [apply Hfin|].
  destruct (contains _ _); [intros He; exfalso; exact (push_error_nonempty _ _ He)|apply Hfin].
Qed.

(** Parsing the URL [opc.tcp://h:p] gives back [h] and [p], for every
    host [h] of the shape [parse_valid_host] describes. *)
Lemma parse_url_of_host h p :
  h <> [] -> ~ In "/" h ->
  (starts_with "[" h = true -> find "]" h = Some (pred (length h))) ->
  (p < 65536)%N ->
  parse_user_input (lit "opc.tcp://" ++ h ++ [":"] ++ show_u16 p)
  = {| host := h; port := Some p; had_scheme := true; errors := [] |}.
Proof.
  intros Hh Hn Hb Hp. destruct (show_u16_ok p Hp) as (Hne & Hch & Hparse).
  set (ds := show_u16 p) in *.
  assert (Htrim : trim (lit "opc.tcp://" ++ h ++ [":"] ++ ds) = lit "opc.tcp://" ++ h ++ [":"] ++ ds).
  { unfold trim.
    change (lit "opc.tcp://" ++ h ++ [":"] ++ ds)
      with ("o" :: (lit "pc.tcp://" ++ h ++ [":"] ++ ds)).
    rewrite trim_start_nonws by reflexivity.
    destruct (exists_last Hne) as (ds' & d & Eds).
    assert (Hd : is_whitespace d = false).
    { apply (Hch d). rewrite Eds. apply in_or_app. right. left. reflexivity. }
    rewrite Eds.
    replace ("o" :: lit "pc.tcp://" ++ h ++ [":"] ++ ds' ++ [d])
      with (("o" :: lit "pc.tcp://" ++ h ++ [":"] ++ ds') ++ [d])
      by (simpl; rewrite <- !app_assoc; reflexivity).
    apply trim_end_nonws. exact Hd. }
  unfold parse_user_input. cbv zeta. rewrite Htrim, strip_prefix_app.
  change (lit "opc.tcp://" ++ h ++ [":"] ++ ds)
    with ("o" :: (lit "pc.tcp://" ++ h ++ [":"] ++ ds)).
  cbv iota beta.
  assert (Hnd : ~ In "/" ds) by (intros H; destruct (Hch _ H) as (_ & _ & H'); congruence).
  assert (Hnc : ~ In ":" ds) by (intros H; destruct (Hch _ H) as (_ & H' & _); congruence).
  rewrite split_first_notin.
  2: { intros H. apply in_app_or in H as [H|[H|H]]; [exact (Hn H)|discriminate|exact (Hnd H)]. }
  unfold parse_host_port.
  destruct h as [|x h']; [congruence|].
  set (h := x :: h') in *.
  assert (Hsw : starts_with "[" (h ++ [":"] ++ ds) = starts_with "[" h) by reflexivity.
  rewrite Hsw. destruct (starts_with "[" h) eqn:Hs.
  - destruct (find_some _ _ _ (Hb eq_refl)) as (_ & _ & Happ).
    rewrite Happ.
    replace (S (pred (length h))) with (length h) by (simpl; lia).
    rewrite take_app_length, drop_app_length. simpl strip_prefix. cbv iota beta. rewrite Hparse.
    reflexivity.
  - unfold rsplitn2. change ([":"] ++ ds) with (":" :: ds). rewrite (split_last_app _ _ _ Hnc). cbv iota beta. rewrite Hparse.
    reflexivity.
Qed.

Lemma trim_end_app_nonws l d r :
  is_whitespace d = false -> trim_end (l ++ d :: r) = l ++ d :: trim_end r.
Proof.
  intros Hd. unfold trim_end. rewrite rev_app_distr. simpl rev at 1.
  rewrite <- app_assoc. simpl app at 2. rewrite trim_start_app.
  destruct (trim_start (rev r)) as [|z zs] eqn:E.
  - rewrite trim_start_nonws by exact Hd. simpl. rewrite rev_involutive. reflexivity.
  - rewrite rev_app_distr. simpl. rewrite rev_involutive, <- app_assoc. reflexivity.
Qed.

Lemma scheme_char_not_space c : is_scheme_char c = true -> is_whitespace c = false.
Proof. destruct c as [[][][][][][][][]]; intros H; first [reflexivity | discriminate H]. Qed.

Lemma scheme_char_not_colon c : is_scheme_char c = true -> c <> ":".
Proof. intros H ->. discriminate H. Qed.

Lemma prefix_before (c : ascii) (a b x y : str) :
  ~ In c a -> ~ In c b -> a ++ c :: x = b ++ c :: y -> a = b.
Proof.
  revert b. induction a as [|u a IH]; intros [|v b] Ha Hb E; simpl in *.
  - reflexivity.
  - injection E as <- _. exfalso. apply Hb. left. reflexivity.
  - injection E as -> _. exfalso. apply Ha. left. reflexivity.
  - injection E as -> E. f_equal. apply IH; auto.
Qed.

Lemma scheme_error_of_trim s :
  strip_prefix (lit "opc.tcp://") (trim s) = None ->
  contains (lit "://") (trim s) = true ->
  errors (parse_user_input s) <> [].
Proof.
  intros H1 H2. unfold parse_user_input. cbv zeta.
  destruct (trim s) as [|c t]; [apply push_error_nonempty|].
  rewrite H1, H2. apply push_error_nonempty.
Qed.

(** An input [scheme://rest] whose scheme is made of scheme characters and
    differs from [opc.tcp] is rejected. *)
Lemma other_scheme_rejected scheme rest :
  Forall (fun c => is_scheme_char c = true) scheme ->
  scheme <> lit "opc.tcp" ->
  errors (parse_user_input (scheme ++ lit "://" ++ rest)) <> [].
Proof.
  intros Hsc Hne.
  rewrite List.Forall_forall in Hsc.
  assert (Htrim : trim (scheme ++ lit "://" ++ rest) = scheme ++ lit "://" ++ trim_end rest).
  { unfold trim.
    assert (Hs : trim_start (scheme ++ lit "://" ++ rest) = scheme ++ lit "://" ++ rest).
    { destruct scheme as [|c sc]; [reflexivity|].
      apply trim_start_nonws, scheme_char_not_space, Hsc. left. reflexivity. }
    rewrite Hs.
    replace (scheme ++ lit "://" ++ rest) with ((scheme ++ [":"; "/"]) ++ "/" :: rest)
      by (rewrite <- app_assoc; reflexivity).
    rewrite trim_end_app_nonws by reflexivity.
    rewrite <- app_assoc. try reflexivity. }
  apply scheme_error_of_trim; rewrite Htrim.
  - destruct (strip_prefix _ _) as [r|] eqn:E; [|reflexivity].
    exfalso. apply strip_prefix_some in E.
    apply Hne. apply (prefix_before ":" scheme (lit "opc.tcp") (lit "//" ++ trim_end rest) (lit "//" ++ r)).
    + intros H. apply (scheme_char_not_colon ":"); [apply Hsc, H|reflexivity].
    + intros H. vm_compute in H. intuition discriminate.
    + exact E.
  - apply contains_app.
Qed.

Lemma contains_some pat s : contains pat s = true -> exists a b, s = a ++ pat ++ b.
Proof.
  induction s as [|c s IH]; rewrite contains_eq.
  - destruct (strip_prefix pat []) as [r|] eqn:E; [|discriminate].
    intros _. exists [], r. apply strip_prefix_some in E. exact E.
  - destruct (strip_prefix pat (c :: s)) as [r|] eqn:E.
    + intros _. exists [], r. apply strip_prefix_some in E. exact E.
    + intros H. destruct (IH H) as (a & b & ->). exists (c :: a), b. reflexivity.
Qed.

(** Without a scheme, [parse_user_input] is [parse_host_port] on the text
    before the first ['/'], followed by the empty-host check. *)
Lemma parse_no_scheme s :
  trim s = s -> s <> [] ->
  strip_prefix (lit "opc.tcp://") s = None -> contains (lit "://") s = false ->
  parse_user_input s
  = let r := parse_host_port empty_parsed (split_first "/" s) in
    match host r with [] => push_error (lit "Host cannot be empty") r | _ :: _ => r end.
Proof.
  intros Ht Hne H1 H2. unfold parse_user_input. cbv zeta. rewrite Ht.
  destruct s as [|c t]; [congruence|]. rewrite H1, H2. reflexivity.
Qed.

(** A trimmed input [h:suffix] without ['/'], not starting with ['['],
    whose text after its last [':'] is not a port, is accepted whole as
    the host. *)
Lemma parse_bad_port_suffix h suf :
  let s := h ++ ":" :: suf in
  trim s = s -> ~ In "/" s -> starts_with "[" s = false -> ~ In ":" suf ->
  parse_u16 suf = None ->
  parse_user_input s = {| host := s; port := None; had_scheme := false; errors := [] |}.
Proof.
  intros s Ht Hn Hb Hc Hp.
  assert (Hne : s <> []) by (unfold s; destruct h; discriminate).
  assert (Hsp : strip_prefix (lit "opc.tcp://") s = None).
  { destruct (strip_prefix _ s) as [r|] eqn:E; [|reflexivity].
    apply strip_prefix_some in E. exfalso. apply Hn. rewrite E.
    apply in_or_app. left. vm_compute. intuition. }
  assert (Hct : contains (lit "://") s = false).
  { destruct (contains _ s) eqn:E; [|reflexivity].
    apply contains_some in E as (a & b & E). exfalso. apply Hn. rewrite E.
    apply in_or_app. right. apply in_or_app. left. vm_compute. intuition. }
  rewrite (parse_no_scheme s Ht Hne Hsp Hct). cbv zeta.
  rewrite (split_first_notin _ _ Hn).
  unfold parse_host_port. rewrite Hb. unfold rsplitn2.
  replace (split_last ":" s) with (Some (h, suf)) by (symmetry; apply split_last_app, Hc).
  cbv iota beta. rewrite Hp.
  unfold s. destruct h; reflexivity.
Qed.

End ParseFacts.

(** Claim C8: for a valid parse of any input and any port, parsing
    [to_url] gives back the same host and that port, with the scheme
    flag set and no error, so [to_url] yields a well-formed
    [opc.tcp://host:port]; and an input [scheme://rest] whose scheme
    differs from [opc.tcp] is rejected with a non-empty error list. *)
Theorem parse_to_url_roundtrip :
  (forall s p,
     Diagnostics.is_valid (Diagnostics.parse_user_input s) = true -> (p < 65536)%N ->
     Diagnostics.parse_user_input (Diagnostics.to_url (Diagnostics.parse_user_input s) p)
     = {| Diagnostics.host := Diagnostics.host (Diagnostics.parse_user_input s);
          Diagnostics.port := Some p; Diagnostics.had_scheme := true;
          Diagnostics.errors := [] |})
  /\ (forall scheme rest,
      Forall (fun c => Diagnostics.is_scheme_char c = true) scheme ->
      scheme <> lit "opc.tcp" ->
      Diagnostics.errors (Diagnostics.parse_user_input (scheme ++ lit "://" ++ rest)) <> []).
Proof.
  split.
  - intros s p Hv Hp.
    destruct (ParseFacts.parse_valid_host s Hv) as (_ & Hh & Hn & Hb).
    apply ParseFacts.parse_url_of_host; assumption.
  - exact ParseFacts.other_scheme_rejected.
Qed.

Lemma parse_to_url_roundtrip_witness :
  Diagnostics.is_valid (Diagnostics.parse_user_input (lit "myhost:abc")) = true
  /\ Diagnostics.parse_user_input
       (Diagnostics.to_url (Diagnostics.parse_user_input (lit "myhost:abc")) 4840)
     = {| Diagnostics.host := lit "myhost:abc"; Diagnostics.port := Some 4840%N;
          Diagnostics.had_scheme := true; Diagnostics.errors := [] |}
  /\ Diagnostics.errors (Diagnostics.parse_user_input (lit "http" ++ lit "://" ++ lit "server"))
     <> [].
Proof.
  destruct parse_to_url_roundtrip as [H1 H2].
  assert (Hv : Diagnostics.is_valid (Diagnostics.parse_user_input (lit "myhost:abc")) = true)
    by (vm_compute; reflexivity).
  split; [exact Hv|]. split.
  - rewrite (H1 _ 4840%N Hv ltac:(lia)). reflexivity.
  - apply H2.
    + repeat constructor.
    + intros H. vm_compute in H. congruence.
Defined.

(** Claim C10 (as stated, refuted): an input [h:suffix] whose suffix is
    not a port is not always accepted whole: in the bracketed IPv6 form the
    suffix is reported as an invalid port. *)
Lemma bad_port_suffix_not_always_host :
  ~ (forall h suf,
       ~ In ":"%char suf -> parse_u16 suf = None ->
       Diagnostics.parse_user_input (h ++ ":"%char :: suf)
       = {| Diagnostics.host := h ++ ":"%char :: suf; Diagnostics.port := None;
            Diagnostics.had_scheme := false; Diagnostics.errors := [] |}).
Proof.
  intros H. specialize (H (lit "[::1]") (lit "abc")).
  assert (Hc : ~ In ":"%char (lit "abc")) by (vm_compute; intuition discriminate).
  specialize (H Hc eq_refl). vm_compute in H. discriminate H.
Qed.

(** Claim C10 (amended): an input [h:suffix], with no [':'] in the
    suffix, that has no surrounding whitespace, no ['/'] (so neither a
    scheme nor a path) and does not start with ['['], and whose suffix does
    not parse as a [u16], is accepted with the whole input as host, no port
    and no error. *)
Theorem bad_port_suffix_is_host h suf :
  let s := h ++ ":"%char :: suf in
  trim s = s -> ~ In "/"%char s -> starts_with "["%char s = false -> ~ In ":"%char suf ->
  parse_u16 suf = None ->
  Diagnostics.parse_user_input s
  = {| Diagnostics.host := s; Diagnostics.port := None;
       Diagnostics.had_scheme := false; Diagnostics.errors := [] |}.
Proof. exact (ParseFacts.parse_bad_port_suffix h suf). Qed.

Lemma bad_port_suffix_is_host_witness :
  Diagnostics.parse_user_input (lit "myhost:abc")
  = {| Diagnostics.host := lit "myhost:abc"; Diagnostics.port := None;
       Diagnostics.had_scheme := false; Diagnostics.errors := [] |}.
Proof.
  apply (bad_port_suffix_is_host (lit "myhost") (lit "abc"));
    [vm_compute; reflexivity | vm_compute; intuition discriminate | reflexivity
    | vm_compute; intuition discriminate | reflexivity].
Defined.

Module SubscriptionStateFacts.
Import Subscription.

Lemma register_keeps_mirror (s : SubscriptionState) nid mid h :
  mirrored s ->
  node_to_handle s !! nid = None -> handle_to_node s !! h = None ->
  mirrored (register_item nid mid h s).
Proof.
  intros [Hm Hd] Hn Hh. split; simpl.
  - intros h' n'. rewrite !lookup_insert.
    destruct (decide (h = h')) as [<-|Hne1]; destruct (decide (nid = n')) as [<-|Hne2].
    + split; reflexivity.
    + split; [intros Hx; congruence|]. intros Hx. apply Hm in Hx. congruence.
    + split; [|intros Hx; congruence]. intros Hx. apply Hm in Hx. congruence.
    + apply Hm.
  - intros h'. rewrite !lookup_insert. destruct (decide (h = h')); [split; eauto|apply Hd].
Qed.

Lemma unregister_keeps_mirror (s : SubscriptionState) nid :
  mirrored s -> mirrored (fst (unregister_by_node nid s)).
Proof.
  intros [Hm Hd]. unfold unregister_by_node.
  destruct (node_to_handle s !! nid) as [h|] eqn:Hn; [|split; assumption].
  assert (Hh : handle_to_node s !! h = Some nid) by (apply Hm; exact Hn).
  split; simpl.
  - intros h' n'. rewrite !lookup_delete.
    destruct (decide (h = h')) as [<-|Hne1]; destruct (decide (nid = n')) as [<-|Hne2].
    + split; discriminate.
    + split; [discriminate|]. intros Hx. apply Hm in Hx. congruence.
    + split; [|discriminate]. intros Hx. apply Hm in Hx. congruence.
    + apply Hm.
  - intros h'. rewrite !lookup_delete. destruct (decide (h = h')); [split; intros [? ?]; discriminate|apply Hd].
Qed.

Lemma unregister_registered (s : SubscriptionState) nid h :
  mirrored s -> node_to_handle s !! nid = Some h ->
  exists item_id, handle_to_server_id s !! h = Some item_id
    /\ snd (unregister_by_node nid s) = Some item_id.
Proof.
  intros [Hm Hd] Hn. unfold unregister_by_node. rewrite Hn.
  assert (Hh : is_Some (handle_to_node s !! h)) by (exists nid; apply Hm; exact Hn).
  apply Hd in Hh as [item_id Hi]. exists item_id. split; [exact Hi|]. simpl. exact Hi.
Qed.


(** The mirror invariant holds for the empty state (the state after
    [clear]); [register_item] of a node and a handle that are both
    unregistered keeps it, and so does [unregister_by_node]; on a mirrored
    state, unregistering a registered node returns the server id stored for
    its handle. *)
Theorem mirror_invariant :
  (forall s, mirrored (clear s))
  /\ (forall s nid mid h, mirrored s -> node_to_handle s !! nid = None ->
        handle_to_node s !! h = None -> mirrored (register_item nid mid h s))
  /\ (forall s nid, mirrored s -> mirrored (fst (unregister_by_node nid s)))
  /\ (forall s nid h, mirrored s -> node_to_handle s !! nid = Some h ->
        exists item_id, handle_to_server_id s !! h = Some item_id
          /\ snd (unregister_by_node nid s) = Some item_id).
Proof.
  split; [|split; [|split]].
  - intros s. split; intros; simpl; rewrite !lookup_empty.
    + split; intros H; discriminate H.
    + split; intros [? H]; discriminate H.
  - exact register_keeps_mirror.
  - exact unregister_keeps_mirror.
  - exact unregister_registered.
Qed.



Lemma mirror_invariant_witness :
  mirrored (register_item "ns=2;s=Var1" 100 1 Subscription.empty_state)
  /\ snd (unregister_by_node "ns=2;s=Var1" (register_item "ns=2;s=Var1" 100 1 Subscription.empty_state))
     = Some 100%N.
Proof.
  destruct mirror_invariant as (Hc & Hr & _ & Hu).
  assert (Hm : mirrored (register_item "ns=2;s=Var1" 100 1 Subscription.empty_state)).
  { apply Hr; [exact (Hc Subscription.empty_state)|reflexivity|reflexivity]. }
  split; [exact Hm|].
  destruct (Hu _ "ns=2;s=Var1" 1%N Hm eq_refl) as (item_id & Hi & Hs).
  rewrite Hs. vm_compute in Hi. injection Hi as <-. reflexivity.
Defined.


End SubscriptionStateFacts.

Module HandleFacts.
Import Client.

Section Handles.

Variable is_good : Subscription.StatusCode -> bool.


Lemma alloc_handles_length c ns : length (fst (alloc_handles c ns)) = length ns.
Proof.
  revert c. induction ns as [|x ns IH]; intros c; simpl; [reflexivity|].
  destruct (alloc_handles _ ns) as [hs c2] eqn:E. simpl. f_equal.
  specialize (IH ((c + 1) mod 2 ^ 32)%N). rewrite E in IH. exact IH.
Qed.

Lemma alloc_handles_counter c ns :
  ns <> [] -> snd (alloc_handles c ns) = ((c + N.of_nat (length ns)) mod 2 ^ 32)%N.
Proof.
  revert c. induction ns as [|x ns IH]; intros c Hne; [congruence|]. simpl.
  destruct (alloc_handles _ ns) as [hs c2] eqn:E. simpl.
  destruct ns as [|y ns'].
  - simpl in E. injection E as _ <-. reflexivity.
  - specialize (IH ((c + 1) mod 2 ^ 32)%N ltac:(discriminate)). rewrite E in IH. simpl in IH |- *.
    rewrite IH, N.Div0.add_mod_idemp_l. f_equal. lia.
Qed.

Lemma alloc_handles_nth c ns :
  (c < 2 ^ 32)%N ->
  forall i h, fst (alloc_handles c ns) !! i = Some h ->
  h = ((c + N.of_nat i) mod 2 ^ 32)%N.
Proof.
  revert c. induction ns as [|x ns IH]; intros c Hc i h Hi; simpl in Hi; [discriminate|].
  destruct (alloc_handles _ ns) as [hs c2] eqn:E. simpl in Hi.
  destruct i as [|i]; simpl in Hi.
  - injection Hi as <-. rewrite N.add_0_r, N.mod_small by exact Hc. reflexivity.
  - assert (Hc' : ((c + 1) mod 2 ^ 32 < 2 ^ 32)%N) by (apply N.mod_upper_bound; discriminate).
    specialize (IH _ Hc' i h). rewrite E in IH. simpl in IH. rewrite (IH Hi).
    rewrite N.Div0.add_mod_idemp_l. f_equal. lia.
Qed.

Lemma handles_distinct_mod c n :
  (n <= 2 ^ 32)%N ->
  forall i j, (N.of_nat i < n)%N -> (N.of_nat j < n)%N ->
  ((c + N.of_nat i) mod 2 ^ 32 = (c + N.of_nat j) mod 2 ^ 32)%N -> i = j.
Proof.
  intros Hn i j Hi Hj Heq.
  assert (Hm : (2 ^ 32 = 4294967296)%N) by reflexivity. rewrite Hm in *.
  pose proof (N.div_mod (c + N.of_nat i) 4294967296 ltac:(discriminate)) as E1.
  pose proof (N.div_mod (c + N.of_nat j) 4294967296 ltac:(discriminate)) as E2.
  pose proof (N.mod_upper_bound (c + N.of_nat i) 4294967296 ltac:(discriminate)).
  nia.
Qed.


Lemma collect_pairs_none ns hs rs :
  length hs = length ns ->
  collect_pairs is_good ns hs rs = None <-> length ns < length rs.
Proof.
  revert ns hs. induction rs as [|r rs IH]; intros ns hs Hl; simpl.
  - split; [intros H; simpl in H; congruence|lia].
  - destruct ns as [|n ns]; destruct hs as [|h hs]; simpl in Hl; try discriminate.
    + split; [intros _; simpl; lia|reflexivity].
    + injection Hl as Hl.
      transitivity (collect_pairs is_good ns hs rs = None); [|rewrite (IH ns hs Hl); simpl; lia].
      simpl. destruct (is_good _); [|reflexivity].
      destruct (collect_pairs is_good ns hs rs); simpl; split; intros H; congruence.
Qed.

Lemma collect_pairs_some ns hs rs ps :
  collect_pairs is_good ns hs rs = Some ps ->
  (forall nid mid h, In (nid, mid, h) ps ->
     exists i r, ns !! i = Some nid /\ hs !! i = Some h /\ rs !! i = Some r
       /\ is_good (result_status r) = true /\ result_monitored_item_id r = mid)
  /\ (NoDup hs -> NoDup (map snd ps) /\ forall h, h ∈ map snd ps -> h ∈ hs).
Proof.
  revert ns hs ps. induction rs as [|r rs IH]; intros ns hs ps Hc; simpl in Hc.
  - injection Hc as <-. split; [intros ? ? ? []|]. intros _. split; [constructor|].
    intros h Hh. inversion Hh.
  - destruct ns as [|n ns]; destruct hs as [|h hs]; try discriminate.
    destruct (collect_pairs is_good ns hs rs) as [ps'|] eqn:E; [|destruct (is_good _); discriminate].
    destruct (IH ns hs ps' E) as [Hin Hnd].
    destruct (is_good (result_status r)) eqn:Hg; simpl in Hc; injection Hc as <-.
    + split.
      * intros nid mid h' [Heq|Hi].
        -- injection Heq as <- <- <-. exists 0, r. repeat split; assumption.
        -- destruct (Hin _ _ _ Hi) as (i & r' & H1 & H2 & H3 & H4 & H5).
           exists (S i), r'. repeat split; assumption.
      * intros Hnd'. apply NoDup_cons in Hnd' as [Hnot Hnd'].
        destruct (Hnd Hnd') as [Hd Hsub]. simpl. split.
        -- constructor; [|exact Hd]. intros Hh. exact (Hnot (Hsub _ Hh)).
        -- intros x Hx. apply elem_of_cons in Hx as [->|Hx]; [left|right; apply Hsub; exact Hx].
    + split.
      * intros nid mid h' Hi. destruct (Hin _ _ _ Hi) as (i & r' & H1 & H2 & H3 & H4 & H5).
        exists (S i), r'. repeat split; assumption.
      * intros Hnd'. apply NoDup_cons in Hnd' as [Hnot Hnd'].
        destruct (Hnd Hnd') as [Hd Hsub]. split; [exact Hd|].
        intros x Hx. right. apply Hsub. exact Hx.
Qed.

Lemma alloc_handles_nodup c ns :
  (c < 2 ^ 32)%N -> (N.of_nat (length ns) <= 2 ^ 32)%N ->
  NoDup (fst (alloc_handles c ns)).
Proof.
  intros Hc Hn. apply NoDup_alt. intros i j h Hi Hj.
  pose proof (alloc_handles_nth c ns Hc i h Hi) as E1.
  pose proof (alloc_handles_nth c ns Hc j h Hj) as E2.
  pose proof (lookup_lt_Some _ _ _ Hi) as L1. pose proof (lookup_lt_Some _ _ _ Hj) as L2.
  rewrite alloc_handles_length in L1, L2.
  apply (handles_distinct_mod c (N.of_nat (length ns)) Hn); [lia|lia|congruence].
Qed.


Lemma add_ok_spec create c sid ns pairs c' :
  (c < 2 ^ 32)%N -> (N.of_nat (length ns) <= 2 ^ 32)%N ->
  add_monitored_items is_good create c sid ns = (AddOk pairs, c') ->
  NoDup (map snd pairs)
  /\ forall nid mid h, In (nid, mid, h) pairs ->
     exists i r results, ns !! i = Some nid /\ h = ((c + N.of_nat i) mod 2 ^ 32)%N
       /\ create sid (combine ns (fst (alloc_handles c ns))) = Some results
       /\ results !! i = Some r /\ is_good (result_status r) = true
       /\ result_monitored_item_id r = mid.
Proof.
  intros Hc Hn Ha. unfold add_monitored_items in Ha.
  destruct ns as [|x ns'].
  - injection Ha as <- _. split; [constructor|intros ? ? ? []].
  - set (ns := x :: ns') in *.
    pose proof (alloc_handles_nodup c ns Hc Hn) as Hnd.
    pose proof (alloc_handles_nth c ns Hc) as Hnth.
    destruct (alloc_handles c ns) as [hs c1] eqn:Ea. simpl in Hnd, Hnth.
    destruct (create sid (combine ns hs)) as [results|] eqn:Ec; [|discriminate].
    destruct (collect_pairs is_good ns hs results) as [ps|] eqn:Ep; [|discriminate].
    injection Ha as <- _.
    destruct (collect_pairs_some ns hs results ps Ep) as [Hin Hd].
    split; [apply Hd; exact Hnd|].
    intros nid mid h Hi. destruct (Hin _ _ _ Hi) as (i & r & H1 & H2 & H3 & H4 & H5).
    exists i, r, results. repeat split; try assumption. apply Hnth. exact H2.
Qed.

Lemma add_ok_handle_range create c sid ns pairs c' :
  (c < 2 ^ 32)%N -> (N.of_nat (length ns) <= 2 ^ 32)%N ->
  add_monitored_items is_good create c sid ns = (AddOk pairs, c') ->
  forall h, In h (map snd pairs) ->
  exists i, i < length ns /\ h = ((c + N.of_nat i) mod 2 ^ 32)%N.
Proof.
  intros Hc Hn Ha h Hh. apply in_map_iff in Hh as [[[nid mid] h'] [<- Hi]].
  destruct (add_ok_spec create c sid ns pairs c' Hc Hn Ha) as [_ Hs].
  destruct (Hs _ _ _ Hi) as (i & r & results & H1 & H2 & _).
  exists i. split; [apply lookup_lt_Some in H1; exact H1|exact H2].
Qed.

Lemma add_counter create c sid ns :
  snd (add_monitored_items is_good create c sid ns)
  = match ns with [] => c | _ :: _ => ((c + N.of_nat (length ns)) mod 2 ^ 32)%N end.
Proof.
  unfold add_monitored_items. destruct ns as [|x ns']; [reflexivity|].
  pose proof (alloc_handles_counter c (x :: ns') ltac:(discriminate)) as Hc.
  destruct (alloc_handles c (x :: ns')) as [hs c1]. simpl in Hc |- *.
  destruct (create sid _) as [results|]; [destruct (collect_pairs _ _ _ _)|]; exact Hc.
Qed.

(** Every call with a non-empty node list consumes one client handle per
    node, whatever its outcome (success, service error or panic); an empty
    list returns [Ok] with no pair and leaves the counter alone. *)
Theorem add_monitored_items_counter create c sid ns :
  snd (add_monitored_items is_good create c sid ns)
  = match ns with [] => c | _ :: _ => ((c + N.of_nat (length ns)) mod 2 ^ 32)%N end
  /\ (ns = [] -> fst (add_monitored_items is_good create c sid ns) = AddOk []).
Proof.
  split; [apply add_counter|]. intros ->. reflexivity.
Qed.

(** A successful call returns pairs with pairwise distinct client
    handles; each pair is a requested node, the handle allocated to it
    (the counter plus its position, modulo [2^32]) and the server id of a
    good result at the same position. *)
Theorem add_monitored_items_pairs create c sid ns pairs c' :
  (c < 2 ^ 32)%N -> (N.of_nat (length ns) <= 2 ^ 32)%N ->
  add_monitored_items is_good create c sid ns = (AddOk pairs, c') ->
  NoDup (map snd pairs)
  /\ forall nid mid h, In (nid, mid, h) pairs ->
     exists i r results, ns !! i = Some nid /\ h = ((c + N.of_nat i) mod 2 ^ 32)%N
       /\ create sid (combine ns (fst (alloc_handles c ns))) = Some results
       /\ results !! i = Some r /\ is_good (result_status r) = true
       /\ result_monitored_item_id r = mid.
Proof. apply add_ok_spec. Qed.

(** With a non-empty node list, a failed service call gives [Err], and
    the call panics exactly when the server returns more results than
    nodes were requested. *)
Theorem add_monitored_items_outcome create c sid ns :
  ns <> [] ->
  match create sid (combine ns (fst (alloc_handles c ns))) with
  | None => fst (add_monitored_items is_good create c sid ns) = AddErr
  | Some results =>
      fst (add_monitored_items is_good create c sid ns) = AddPanic
      <-> length ns < length results
  end.
Proof.
  intros Hne. unfold add_monitored_items.
  destruct ns as [|x ns']; [congruence|].
  pose proof (alloc_handles_length c (x :: ns')) as Hl.
  destruct (alloc_handles c (x :: ns')) as [hs c1]. simpl in Hl |- *.
  destruct (create sid _) as [results|]; [|reflexivity].
  rewrite <- (collect_pairs_none (x :: ns') hs results Hl).
  destruct (collect_pairs _ _ _ _); simpl; split; intros H; congruence.
Qed.

(** Two successive successful calls hand out disjoint client handles as
    long as the counter does not wrap around. *)
Theorem successive_calls_disjoint create1 create2 c sid1 sid2 ns1 ns2 ps1 ps2 c1 c2 :
  (c + N.of_nat (length ns1 + length ns2) <= 2 ^ 32)%N ->
  (c < 2 ^ 32)%N ->
  add_monitored_items is_good create1 c sid1 ns1 = (AddOk ps1, c1) ->
  add_monitored_items is_good create2 c1 sid2 ns2 = (AddOk ps2, c2) ->
  forall h, In h (map snd ps1) -> ~ In h (map snd ps2).
Proof.
  intros Hb Hc Ha1 Ha2 h Hh1 Hh2.
  assert (Hm : (2 ^ 32 = 4294967296)%N) by reflexivity.
  assert (Hn1 : (N.of_nat (length ns1) <= 2 ^ 32)%N) by lia.
  destruct (add_ok_handle_range _ _ _ _ _ _ Hc Hn1 Ha1 h Hh1) as (i & Hi & E1).
  pose proof (add_counter create1 c sid1 ns1) as Ec. rewrite Ha1 in Ec. simpl in Ec.
  destruct ns1 as [|x ns1']; [simpl in Hi; lia|].
  destruct ns2 as [|y ns2'].
  - unfold add_monitored_items in Ha2. injection Ha2 as <- _. exact Hh2.
  - simpl length in *.
    assert (Ec1 : c1 = (c + N.of_nat (S (length ns1')))%N).
    { rewrite Ec. apply N.mod_small. lia. }
    assert (Hc1 : (c1 < 2 ^ 32)%N) by lia.
    assert (Hn2 : (N.of_nat (S (length ns2')) <= 2 ^ 32)%N) by (rewrite Hm in *; lia).
    destruct (add_ok_handle_range _ _ _ (y :: ns2') _ _ Hc1 Hn2 Ha2 h Hh2) as (j & Hj & E2).
    rewrite N.mod_small in E1 by (rewrite Hm in *; lia).
    simpl length in Hj. rewrite N.mod_small in E2 by (rewrite Hm in *; lia). lia.
Qed.

End Handles.

Lemma add_monitored_items_counter_witness :
  snd (add_monitored_items ExtraInputs.severity_is_good (fun _ _ => None) 1 7 ExtraInputs.two_nodes)
  = 3%N
  /\ fst (add_monitored_items ExtraInputs.severity_is_good ExtraInputs.accepting_server 1 7 [])
     = AddOk [].
Proof.
  destruct (add_monitored_items_counter ExtraInputs.severity_is_good
              (fun _ _ => None) 1 7 ExtraInputs.two_nodes) as [H1 _].
  destruct (add_monitored_items_counter ExtraInputs.severity_is_good
              ExtraInputs.accepting_server 1 7 []) as [_ H2].
  split; [rewrite H1; reflexivity|apply H2; reflexivity].
Defined.

Lemma add_monitored_items_pairs_witness :
  (1 < 2 ^ 32)%N /\ (N.of_nat (length ExtraInputs.two_nodes) <= 2 ^ 32)%N
  /\ add_monitored_items ExtraInputs.severity_is_good ExtraInputs.accepting_server 1 7 ExtraInputs.two_nodes
     = (AddOk [("ns=2;s=Temperature", 101%N, 1%N); ("ns=2;s=Pressure", 102%N, 2%N)], 3%N)
  /\ NoDup (map snd [("ns=2;s=Temperature", 101%N, 1%N); ("ns=2;s=Pressure", 102%N, 2%N)]).
Proof.
  assert (H1 : (1 < 2 ^ 32)%N) by (vm_compute; reflexivity).
  assert (H2 : (N.of_nat (length ExtraInputs.two_nodes) <= 2 ^ 32)%N) by (vm_compute; discriminate).
  assert (H3 : add_monitored_items ExtraInputs.severity_is_good ExtraInputs.accepting_server 1 7
                 ExtraInputs.two_nodes
               = (AddOk [("ns=2;s=Temperature", 101%N, 1%N); ("ns=2;s=Pressure", 102%N, 2%N)], 3%N))
    by (vm_compute; reflexivity).
  split; [exact H1|]. split; [exact H2|]. split; [exact H3|].
  exact (proj1 (add_monitored_items_pairs ExtraInputs.severity_is_good
                  ExtraInputs.accepting_server 1 7 ExtraInputs.two_nodes _ _ H1 H2 H3)).
Defined.

Lemma add_monitored_items_outcome_witness :
  ExtraInputs.two_nodes <> []
  /\ fst (add_monitored_items ExtraInputs.severity_is_good ExtraInputs.overfull_server 1 7
            ExtraInputs.two_nodes) = AddPanic.
Proof.
  assert (Hne : ExtraInputs.two_nodes <> []) by discriminate.
  split; [exact Hne|].
  pose proof (add_monitored_items_outcome ExtraInputs.severity_is_good
                ExtraInputs.overfull_server 1 7 ExtraInputs.two_nodes Hne) as H.
  simpl in H |- *. apply H. simpl. lia.
Defined.

Lemma successive_calls_disjoint_witness :
  (1 + N.of_nat (length ExtraInputs.two_nodes + length ["ns=2;s=Level"]) <= 2 ^ 32)%N
  /\ add_monitored_items ExtraInputs.severity_is_good ExtraInputs.accepting_server 1 7 ExtraInputs.two_nodes
     = (AddOk [("ns=2;s=Temperature", 101%N, 1%N); ("ns=2;s=Pressure", 102%N, 2%N)], 3%N)
  /\ add_monitored_items ExtraInputs.severity_is_good ExtraInputs.accepting_server 3 7 ["ns=2;s=Level"]
     = (AddOk [("ns=2;s=Level", 103%N, 3%N)], 4%N)
  /\ ~ In 1%N (map snd [("ns=2;s=Level", 103%N, 3%N)]).
Proof.
  assert (H0 : (1 + N.of_nat (length ExtraInputs.two_nodes + length ["ns=2;s=Level"]) <= 2 ^ 32)%N)
    by (vm_compute; discriminate).
  assert (Hc : (1 < 2 ^ 32)%N) by (vm_compute; reflexivity).
  assert (H1 : add_monitored_items ExtraInputs.severity_is_good ExtraInputs.accepting_server 1 7
                 ExtraInputs.two_nodes
               = (AddOk [("ns=2;s=Temperature", 101%N, 1%N); ("ns=2;s=Pressure", 102%N, 2%N)], 3%N))
    by (vm_compute; reflexivity).
  assert (H2 : add_monitored_items ExtraInputs.severity_is_good ExtraInputs.accepting_server 3 7
                 ["ns=2;s=Level"] = (AddOk [("ns=2;s=Level", 103%N, 3%N)], 4%N))
    by (vm_compute; reflexivity).
  split; [exact H0|]. split; [exact H1|]. split; [exact H2|].
  apply (successive_calls_disjoint ExtraInputs.severity_is_good
           ExtraInputs.accepting_server ExtraInputs.accepting_server 1 7 7
           ExtraInputs.two_nodes ["ns=2;s=Level"] _ _ _ _ H0 Hc H1 H2).
  left. reflexivity.
Defined.

End HandleFacts.

Module ManagerFacts.
Import Subscription.

Section Manager.

Context {f64 f32 DT : Type}.
Variable f64_of_int : Z -> f64.
Variable f64_of_f32 : f32 -> f64.
Variables f64_zero f64_one : f64.
Variable timestamp_seconds : DT -> f64.

Local Abbreviation upd := (@update f64 f32 DT f64_of_int f64_of_f32 f64_zero f64_one timestamp_seconds).
Local Abbreviation hdc := (@handle_data_change f64 f32 DT f64_of_int f64_of_f32 f64_zero f64_one timestamp_seconds).
Local Abbreviation hmsg := (@handle_message f64 f32 DT f64_of_int f64_of_f32 f64_zero f64_one timestamp_seconds).
Local Abbreviation Manager := (@SubscriptionManager f64 f32 DT).

Lemma items_added_keys (pairs : list (string * N * N)) :
  forall (m : Manager) nid,
  is_Some (monitored_items (handle_monitored_items_added pairs m) !! nid)
  <-> is_Some (monitored_items m !! nid).
Proof.
  induction pairs as [|[[n i] h] ps IH]; intros m nid; simpl; [reflexivity|].
  rewrite IH. simpl. destruct (monitored_items m !! n) as [item|] eqn:Hn; [|reflexivity].
  rewrite lookup_insert. case_decide; [subst; rewrite Hn; split; eauto|reflexivity].
Qed.

Lemma data_change_keys now h dv (m : Manager) nid :
  is_Some (monitored_items (hdc now h dv m) !! nid) <-> is_Some (monitored_items m !! nid).
Proof.
  unfold handle_data_change. destruct (get_node_id h (subscription_state m)) as [n|]; [|reflexivity].
  destruct (monitored_items m !! n) as [item|] eqn:Hn; [|reflexivity].
  simpl. rewrite lookup_insert. case_decide; [subst; rewrite Hn; split; eauto|reflexivity].
Qed.

Lemma spawn_add_items_items (m : Manager) :
  monitored_items (fst (spawn_add_items_task m)) = monitored_items m.
Proof.
  unfold spawn_add_items_task. destruct (_ =? _)%N; [reflexivity|].
  destruct (pending_monitored_items m); reflexivity.
Qed.

Lemma items_added_other_handle (pairs : list (string * N * N)) :
  forall (m : Manager) h,
  ~ In h (map snd pairs) ->
  handle_to_node (subscription_state (handle_monitored_items_added pairs m)) !! h
  = handle_to_node (subscription_state m) !! h.
Proof.
  induction pairs as [|[[n i] h'] ps IH]; intros m h Hh; simpl; [reflexivity|].
  simpl in Hh. rewrite IH by tauto. simpl. rewrite lookup_insert_ne by tauto. reflexivity.
Qed.

Lemma items_added_other_server (pairs : list (string * N * N)) :
  forall (m : Manager) h,
  ~ In h (map snd pairs) ->
  handle_to_server_id (subscription_state (handle_monitored_items_added pairs m)) !! h
  = handle_to_server_id (subscription_state m) !! h.
Proof.
  induction pairs as [|[[n i] h'] ps IH]; intros m h Hh; simpl; [reflexivity|].
  simpl in Hh. rewrite IH by tauto. simpl. rewrite lookup_insert_ne by tauto. reflexivity.
Qed.

Lemma items_added_registers (pairs : list (string * N * N)) :
  forall (m : Manager) nid mid h,
  NoDup (map snd pairs) -> In (nid, mid, h) pairs ->
  get_node_id h (subscription_state (handle_monitored_items_added pairs m)) = Some nid
  /\ handle_to_server_id (subscription_state (handle_monitored_items_added pairs m)) !! h = Some mid.
Proof.
  unfold get_node_id.
  induction pairs as [|[[n i] h'] ps IH]; intros m nid mid h Hnd Hin; [destruct Hin|].
  simpl in Hnd. apply NoDup_cons in Hnd as [Hnot Hnd]. rewrite list_elem_of_In in Hnot.
  destruct Hin as [Heq|Hin].
  - injection Heq as -> -> ->. simpl.
    rewrite items_added_other_handle, items_added_other_server by exact Hnot. simpl.
    rewrite !lookup_insert_eq. split; reflexivity.
  - simpl. apply IH; assumption.
Qed.

Lemma data_change_at now h dv (m : Manager) nid :
  get_node_id h (subscription_state m) = Some nid ->
  forall n, monitored_items (hdc now h dv m) !! n
            = if decide (n = nid) then upd now dv <$> monitored_items m !! n
              else monitored_items m !! n.
Proof.
  intros Hg n. unfold handle_data_change. rewrite Hg.
  destruct (monitored_items m !! nid) as [item|] eqn:Hi.
  - simpl. rewrite lookup_insert. repeat case_decide; subst; try congruence.
    rewrite Hi. reflexivity.
  - case_decide; subst; [rewrite Hi|]; reflexivity.
Qed.


(** A session message clears the manager: nothing is watched, queued or
    registered, and the next watch request starts a new subscription. *)
Theorem session_change_resets now msg (m : Manager) (node : Crawler.BrowsedNode) :
  msg = SessionEstablished \/ msg = SessionClosed ->
  let m1 := fst (hmsg now msg m) in
  monitored_items m1 = ∅ /\ pending_monitored_items m1 = []
  /\ (forall h, get_node_id h (subscription_state m1) = None)
  /\ snd (add_to_watchlist node m1) = Some CreateSubscriptionTask.
Proof.
  intros [-> | ->]; simpl; (split; [reflexivity|]); (split; [reflexivity|]);
    (split; [intros h; reflexivity|]); reflexivity.
Qed.

(** Only the session messages change which nodes are watched (they empty
    the watchlist); every other message keeps the watched set. *)
Theorem watched_set_by_message now msg (m : Manager) nid :
  match msg with
  | SessionEstablished | SessionClosed => monitored_items (fst (handle_message f64_of_int f64_of_f32 f64_zero f64_one timestamp_seconds now msg m)) = ∅
  | _ => is_Some (monitored_items (fst (handle_message f64_of_int f64_of_f32 f64_zero f64_one timestamp_seconds now msg m)) !! nid)
         <-> is_Some (monitored_items m !! nid)
  end.
Proof.
  destruct msg as [| | |h dv|id|pairs]; simpl; try reflexivity.
  - apply data_change_keys.
  - destruct (spawn_add_items_task _) as [m2 t] eqn:E.
    pose proof (spawn_add_items_items
      {| monitored_items := monitored_items m;
         subscription_state := set_subscription_id (Some id) (subscription_state m);
         pending_monitored_items := pending_monitored_items m;
         creating_subscription := false |}) as Hk.
    rewrite E in Hk. simpl in Hk |- *. rewrite Hk. reflexivity.
  - apply items_added_keys.
Qed.

(** Removing a node the server confirmed sends one remove request with
    the server's monitored-item id (not the client handle), drops the node
    from the watchlist and from the handle maps, and a late data change on
    its handle is then ignored. *)
Theorem remove_after_added (m : Manager) sid nid mid h :
  subscription_id (subscription_state m) = Some sid ->
  let m1 := handle_monitored_items_added [(nid, mid, h)] m in
  let '(m2, t) := app_remove_from_watchlist nid m1 in
  t = Some (RemoveItemsTask sid [mid])
  /\ monitored_items m2 !! nid = None
  /\ node_to_handle (subscription_state m2) !! nid = None
  /\ get_node_id h (subscription_state m2) = None
  /\ (forall now dv, hdc now h dv m2 = m2).
Proof.
  intros Hs. simpl.
  unfold app_remove_from_watchlist, remove_from_watchlist, unregister_by_node. simpl.
  rewrite !lookup_insert_eq. simpl. rewrite Hs.
  split; [reflexivity|]. split; [apply lookup_delete_eq|].
  split; [apply lookup_delete_eq|].
  assert (Hg : get_node_id h
     {| subscription_id := Some sid;
        handle_to_node := delete h (<[h:=nid]> (handle_to_node (subscription_state m)));
        node_to_handle := delete nid (<[nid:=h]> (node_to_handle (subscription_state m)));
        handle_to_server_id := delete h (<[h:=mid]> (handle_to_server_id (subscription_state m))) |}
     = None) by apply lookup_delete_eq.
  split; [exact Hg|]. intros now dv. unfold handle_data_change. simpl.
  unfold get_node_id in Hg |- *. simpl in Hg |- *. rewrite Hg. reflexivity.
Qed.


(** [SubscriptionCreated id] with a non-zero id sends every queued node in
    one add request to that subscription, empties the queue and ends the
    creation phase. *)
Theorem subscription_created_flushes now (m : Manager) id :
  id <> 0%N -> pending_monitored_items m <> [] ->
  let '(m1, t) := handle_message f64_of_int f64_of_f32 f64_zero f64_one timestamp_seconds now (SubscriptionCreated id) m in
  t = Some (AddItemsTask id (pending_monitored_items m))
  /\ pending_monitored_items m1 = []
  /\ subscription_id (subscription_state m1) = Some id
  /\ creating_subscription m1 = false
  /\ monitored_items m1 = monitored_items m.
Proof.
  intros Hid Hp. simpl. unfold spawn_add_items_task. simpl.
  destruct (N.eqb_spec id 0); [contradiction|].
  destruct (pending_monitored_items m) as [|x xs]; [contradiction|].
  repeat split; reflexivity.
Qed.

(** [SubscriptionCreated 0] sends nothing and leaves the queue as it is;
    a node watched afterwards is added to the watchlist but no add request
    is ever sent for it. *)
Theorem subscription_id_zero_strands now (m : Manager) :
  let '(m1, t) := hmsg now (SubscriptionCreated 0) m in
  t = None /\ pending_monitored_items m1 = pending_monitored_items m
  /\ forall node, monitored_items m1 !! Crawler.node_id node = None ->
     let '(m2, t2) := add_to_watchlist node m1 in
     t2 = None /\ is_Some (monitored_items m2 !! Crawler.node_id node).
Proof.
  simpl. split; [reflexivity|]. split; [reflexivity|].
  intros node Hn. unfold add_to_watchlist, request_add_to_watchlist. simpl in Hn |- *.
  rewrite Hn. simpl. rewrite lookup_insert_eq. split; [reflexivity|eauto].
Qed.

(** After an [Error] message, with no subscription yet, the next new
    node starts a new subscription creation, and the queue keeps the
    nodes requested before the error. *)
Theorem error_allows_retry now (m : Manager) (node : Crawler.BrowsedNode) :
  subscription_id (subscription_state m) = None ->
  monitored_items m !! Crawler.node_id node = None ->
  let '(m2, t) := add_to_watchlist node (fst (hmsg now Error' m)) in
  t = Some CreateSubscriptionTask
  /\ pending_monitored_items m2 = pending_monitored_items m ++ [Crawler.node_id node]
  /\ creating_subscription m2 = true.
Proof.
  intros Hs Hn. unfold add_to_watchlist, request_add_to_watchlist. simpl.
  rewrite Hn, Hs. simpl. repeat split; reflexivity.
Qed.

(** After [MonitoredItemsAdded pairs] with distinct handles, a data change
    on the handle of a pair resolves to the pair's node and updates that
    node's item only. *)
Theorem items_added_then_data_change now dv (m : Manager) pairs nid mid h :
  NoDup (map snd pairs) -> In (nid, mid, h) pairs ->
  let m1 := handle_monitored_items_added pairs m in
  get_node_id h (subscription_state m1) = Some nid
  /\ handle_to_server_id (subscription_state m1) !! h = Some mid
  /\ forall n, monitored_items (hdc now h dv m1) !! n
               = if decide (n = nid) then upd now dv <$> monitored_items m1 !! n
                 else monitored_items m1 !! n.
Proof.
  intros Hnd Hin. simpl.
  destruct (items_added_registers pairs m nid mid h Hnd Hin) as [Hg Hs].
  split; [exact Hg|]. split; [exact Hs|]. apply data_change_at. exact Hg.
Qed.

(** [is_trendable] after an update depends on the new value only: it
    holds exactly when the value is numeric; an update that leaves the
    item untrendable keeps its history. *)
Theorem trendable_after_update now dv (md : @MonitoredData f64 f32 DT) :
  is_trendable f64_of_int f64_of_f32 f64_zero f64_one (upd now dv md)
  = match dv_value dv with Some v => is_numeric v | None => false end
  /\ (is_trendable f64_of_int f64_of_f32 f64_zero f64_one (upd now dv md) = false ->
      history (upd now dv md) = history md).
Proof.
  unfold update, is_trendable. simpl.
  destruct (dv_value dv) as [v|]; simpl; [|split; reflexivity].
  destruct v; simpl; split; try reflexivity; discriminate.
Qed.

(** End to end: after [MonitoredItemsAdded] with the pairs of a successful
    [add_monitored_items] call, a data change on the handle of any of its
    pairs resolves to that pair's node and updates that node's item only. *)
Theorem added_items_receive_data_changes is_good create c sid ns pairs c' now dv
    (m : Manager) nid mid h :
  (c < 2 ^ 32)%N -> (N.of_nat (length ns) <= 2 ^ 32)%N ->
  Client.add_monitored_items is_good create c sid ns = (Client.AddOk pairs, c') ->
  In (nid, mid, h) pairs ->
  let m1 := fst (hmsg now (MonitoredItemsAdded pairs) m) in
  get_node_id h (subscription_state m1) = Some nid
  /\ forall n, monitored_items (fst (hmsg now (DataChange h dv) m1)) !! n
               = if decide (n = nid) then upd now dv <$> monitored_items m1 !! n
                 else monitored_items m1 !! n.
Proof.
  intros Hc Hn Ha Hin. simpl.
  destruct (HandleFacts.add_ok_spec is_good create c sid ns pairs c' Hc Hn Ha) as [Hnd _].
  destruct (items_added_registers pairs m nid mid h Hnd Hin) as [Hg _].
  split; [exact Hg|]. apply data_change_at. exact Hg.
Qed.

End Manager.


Import WatchInputs ExtraInputs.

Lemma session_change_resets_witness :
  (@SessionClosed unit unit unit = SessionEstablished \/ @SessionClosed unit unit unit = SessionClosed)
  /\ (let m1 := fst (unit_message tt SessionClosed queued_manager) in
      monitored_items m1 = ∅ /\ pending_monitored_items m1 = []
      /\ (forall h, get_node_id h (subscription_state m1) = None)
      /\ snd (add_to_watchlist node3 m1) = Some CreateSubscriptionTask).
Proof.
  split; [right; reflexivity|].
  apply session_change_resets. right; reflexivity.
Defined.

Lemma remove_after_added_witness :
  subscription_id (subscription_state subscribed_manager) = Some 7%N
  /\ (let m1 := handle_monitored_items_added [("ns=2;s=Temperature", 42%N, 3%N)] subscribed_manager in
      let '(m2, t) := app_remove_from_watchlist "ns=2;s=Temperature" m1 in
      t = Some (RemoveItemsTask 7 [42%N])
      /\ monitored_items m2 !! "ns=2;s=Temperature" = None
      /\ node_to_handle (subscription_state m2) !! "ns=2;s=Temperature" = None
      /\ get_node_id 3%N (subscription_state m2) = None
      /\ (forall now dv, unit_data_change now 3%N dv m2 = m2)).
Proof.
  split; [reflexivity|].
  apply remove_after_added. reflexivity.
Defined.


Lemma subscription_created_flushes_witness :
  5%N <> 0%N /\ pending_monitored_items queued_manager <> []
  /\ (let '(m1, t) := unit_message tt (SubscriptionCreated 5) queued_manager in
      t = Some (AddItemsTask 5 (pending_monitored_items queued_manager))
      /\ pending_monitored_items m1 = []
      /\ subscription_id (subscription_state m1) = Some 5%N
      /\ creating_subscription m1 = false
      /\ monitored_items m1 = monitored_items queued_manager).
Proof.
  split; [discriminate|]. split; [vm_compute; discriminate|].
  apply subscription_created_flushes; [discriminate | vm_compute; discriminate].
Defined.

Lemma subscription_id_zero_strands_witness :
  monitored_items subscribed_manager !! Crawler.node_id node3 = None
  /\ (let '(m1, t) := unit_message tt (SubscriptionCreated 0) subscribed_manager in
      t = None /\ pending_monitored_items m1 = pending_monitored_items subscribed_manager
      /\ forall node, monitored_items m1 !! Crawler.node_id node = None ->
         let '(m2, t2) := add_to_watchlist node m1 in
         t2 = None /\ is_Some (monitored_items m2 !! Crawler.node_id node)).
Proof.
  split; [reflexivity|].
  apply subscription_id_zero_strands.
Defined.

Lemma error_allows_retry_witness :
  subscription_id (subscription_state queued_manager) = None
  /\ monitored_items queued_manager !! Crawler.node_id node3 = None
  /\ (let '(m2, t) := add_to_watchlist node3 (fst (unit_message tt Error' queued_manager)) in
      t = Some CreateSubscriptionTask
      /\ pending_monitored_items m2 = pending_monitored_items queued_manager ++ [Crawler.node_id node3]
      /\ creating_subscription m2 = true).
Proof.
  split; [reflexivity|]. split; [reflexivity|].
  apply error_allows_retry; reflexivity.
Defined.

Lemma items_added_then_data_change_witness :
  NoDup (map snd [("ns=2;s=Temperature", 42%N, 3%N); ("ns=2;s=Pressure", 43%N, 4%N)])
  /\ In ("ns=2;s=Pressure", 43%N, 4%N) [("ns=2;s=Temperature", 42%N, 3%N); ("ns=2;s=Pressure", 43%N, 4%N)]
  /\ (let m1 := handle_monitored_items_added
                  [("ns=2;s=Temperature", 42%N, 3%N); ("ns=2;s=Pressure", 43%N, 4%N)] queued_manager in
      get_node_id 4%N (subscription_state m1) = Some "ns=2;s=Pressure"
      /\ handle_to_server_id (subscription_state m1) !! 4%N = Some 43%N
      /\ forall n, monitored_items (unit_data_change tt 4%N sample_dv m1) !! n
                   = if decide (n = "ns=2;s=Pressure") then unit_update tt sample_dv <$> monitored_items m1 !! n
                     else monitored_items m1 !! n).
Proof.
  assert (Hnd : NoDup (map snd [("ns=2;s=Temperature", 42%N, 3%N); ("ns=2;s=Pressure", 43%N, 4%N)])).
  { simpl. repeat constructor; [set_solver|set_solver]. }
  assert (Hin : In ("ns=2;s=Pressure", 43%N, 4%N)
                  [("ns=2;s=Temperature", 42%N, 3%N); ("ns=2;s=Pressure", 43%N, 4%N)])
    by (simpl; right; left; reflexivity).
  split; [exact Hnd|]. split; [exact Hin|].
  exact (items_added_then_data_change unit_of_int unit_of_unit tt tt unit_of_unit tt sample_dv
           queued_manager _ _ _ _ Hnd Hin).
Defined.

Lemma trendable_after_update_witness :
  unit_is_trendable (unit_update tt sample_dv (@new_monitored_data unit unit unit "ns=2;s=Temperature" "Temperature")) = true
  /\ (unit_is_trendable (unit_update tt sample_dv (@new_monitored_data unit unit unit "ns=2;s=Temperature" "Temperature"))
      = match dv_value sample_dv with Some v => is_numeric v | None => false end
      /\ (unit_is_trendable (unit_update tt sample_dv (@new_monitored_data unit unit unit "ns=2;s=Temperature" "Temperature")) = false ->
          history (unit_update tt sample_dv (@new_monitored_data unit unit unit "ns=2;s=Temperature" "Temperature")) = history (@new_monitored_data unit unit unit "ns=2;s=Temperature" "Temperature"))).
Proof.
  split; [reflexivity|].
  apply trendable_after_update.
Defined.

Lemma added_items_receive_data_changes_witness :
  (0 < 2 ^ 32)%N /\ (N.of_nat (length two_nodes) <= 2 ^ 32)%N
  /\ Client.add_monitored_items severity_is_good accepting_server 0 7 two_nodes
     = (Client.AddOk [("ns=2;s=Temperature", 100%N, 0%N); ("ns=2;s=Pressure", 101%N, 1%N)], 2%N)
  /\ In ("ns=2;s=Pressure", 101%N, 1%N) [("ns=2;s=Temperature", 100%N, 0%N); ("ns=2;s=Pressure", 101%N, 1%N)]
  /\ (let m1 := fst (unit_message tt (MonitoredItemsAdded
                       [("ns=2;s=Temperature", 100%N, 0%N); ("ns=2;s=Pressure", 101%N, 1%N)]) queued_manager) in
      get_node_id 1%N (subscription_state m1) = Some "ns=2;s=Pressure"
      /\ forall n, monitored_items (fst (unit_message tt (DataChange 1 sample_dv) m1)) !! n
                   = if decide (n = "ns=2;s=Pressure") then unit_update tt sample_dv <$> monitored_items m1 !! n
                     else monitored_items m1 !! n).
Proof.
  assert (Hc : (0 < 2 ^ 32)%N) by (vm_compute; reflexivity).
  assert (Hn : (N.of_nat (length two_nodes) <= 2 ^ 32)%N) by (vm_compute; discriminate).
  assert (Ha : Client.add_monitored_items severity_is_good accepting_server 0 7 two_nodes
     = (Client.AddOk [("ns=2;s=Temperature", 100%N, 0%N); ("ns=2;s=Pressure", 101%N, 1%N)], 2%N))
    by (vm_compute; reflexivity).
  assert (Hin : In ("ns=2;s=Pressure", 101%N, 1%N)
                  [("ns=2;s=Temperature", 100%N, 0%N); ("ns=2;s=Pressure", 101%N, 1%N)])
    by (simpl; right; left; reflexivity).
  split; [exact Hc|]. split; [exact Hn|]. split; [exact Ha|]. split; [exact Hin|].
  exact (added_items_receive_data_changes unit_of_int unit_of_unit tt tt unit_of_unit
           severity_is_good accepting_server 0 7 two_nodes _ 2 tt sample_dv queued_manager _ _ _
           Hc Hn Ha Hin).
Defined.

End ManagerFacts.

Module DiscoveryFacts.
Import Pipeline Discovery.
Local Open Scope char_scope.

Lemma split_last_after c s b a : split_last c s = Some (b, a) -> ~ In c a.
Proof.
  revert b. induction s as [|d s IH]; intros b Hs; simpl in Hs; [discriminate|].
  destruct (split_last c s) as [[b' a']|] eqn:E.
  - injection Hs as _ <-. exact (IH b' eq_refl).
  - destruct (Ascii.eqb_spec c d); [|discriminate]. injection Hs as _ <-.
    intros Hin. clear IH. induction s as [|y s IHs]; [destruct Hin|].
    simpl in E. destruct (split_last c s) as [[? ?]|]; [discriminate|].
    destruct (Ascii.eqb_spec c y); [discriminate|].
    destruct Hin as [->|Hin]; [congruence|exact (IHs E Hin)].
Qed.

Lemma split_last_none_notin c s : split_last c s = None -> ~ In c s.
Proof.
  induction s as [|d s IH]; intros Hs; [intros []|]. simpl in Hs.
  destruct (split_last c s) as [[? ?]|]; [discriminate|].
  destruct (Ascii.eqb_spec c d); [discriminate|].
  intros [->|Hin]; [congruence|exact (IH eq_refl Hin)].
Qed.

Lemma contains_mid pat a s b :
  contains pat s = true -> contains pat (a ++ s ++ b) = true.
Proof.
  intros Hs. destruct (ParseFacts.contains_some _ _ Hs) as (x & y & ->).
  replace (a ++ (x ++ pat ++ y) ++ b) with ((a ++ x) ++ pat ++ (y ++ b))
    by (rewrite <- !app_assoc; reflexivity).
  apply ParseFacts.contains_app.
Qed.

Lemma to_lowercase_app a b : to_lowercase (a ++ b) = to_lowercase a ++ to_lowercase b.
Proof. apply map_app. Qed.

(** The security-policy name extracted from a URI never contains ['#']. *)
Theorem policy_name_no_hash uri : ~ In "#" (parse_security_policy_name uri).
Proof.
  unfold parse_security_policy_name.
  destruct (split_last "#" uri) as [[b a]|] eqn:E1; [exact (split_last_after _ _ _ _ E1)|].
  pose proof (split_last_none_notin _ _ E1) as Hn.
  destruct (split_last "/" uri) as [[b a]|] eqn:E2.
  - apply ParseFacts.split_last_some in E2. subst uri.
    intros Ha. apply Hn. apply in_or_app. right. right. exact Ha.
  - destruct uri as [|x u]; [intros H; vm_compute in H; intuition discriminate|].
    destruct (contains _ _); [intros H; vm_compute in H; intuition discriminate|exact Hn].
Qed.

(** For a URI [prefix#name] whose name has no ['#'], the policy name is
    that name, whatever the prefix (including any ['/'] in the name). *)
Theorem policy_name_after_hash prefix name :
  ~ In "#" name -> parse_security_policy_name (prefix ++ "#" :: name) = name.
Proof.
  intros Hn. unfold parse_security_policy_name. rewrite ParseFacts.split_last_app by exact Hn.
  reflexivity.
Qed.

(** An endpoint that lists a token of type [Anonymous], whatever its
    policy id, allows anonymous access; so does any token whose policy id
    contains "anonymous" in any letter case, whatever its type. *)
Theorem allows_anonymous_tokens (ep : EndpointInfo) :
  (forall pid, In (token_label Anonymous pid) (user_tokens ep) -> allows_anonymous ep = true)
  /\ (forall t pid, contains (lit "anonymous") (to_lowercase pid) = true ->
      In (token_label t pid) (user_tokens ep) -> allows_anonymous ep = true).
Proof.
  unfold allows_anonymous. split.
  - intros pid Hin. apply existsb_exists. exists (token_label Anonymous pid). split; [exact Hin|].
    unfold token_label. rewrite to_lowercase_app.
    change (to_lowercase (token_type_name Anonymous)) with (lit "anonymous").
    rewrite <- (app_nil_l (lit "anonymous" ++ _)). apply ParseFacts.contains_app.
  - intros t pid Hc Hin. apply existsb_exists. exists (token_label t pid). split; [exact Hin|].
    unfold token_label. rewrite !to_lowercase_app, app_assoc. apply contains_mid. exact Hc.
Qed.

Lemma policy_name_after_hash_witness :
  ~ In "#" (lit "Basic256Sha256")
  /\ parse_security_policy_name (lit "http://opcfoundation.org/UA/SecurityPolicy" ++ "#" :: lit "Basic256Sha256")
     = lit "Basic256Sha256".
Proof.
  assert (H : ~ In "#" (lit "Basic256Sha256")) by (simpl; intuition discriminate).
  split; [exact H|]. exact (policy_name_after_hash _ _ H).
Defined.

Lemma allows_anonymous_tokens_witness :
  let ep := {| security_policy_name := lit "None"; security_mode := lit "None";
               has_certificate := false; endpoint_url := lit "opc.tcp://localhost:4840";
               user_tokens := [token_label UserName (lit "username"); token_label Anonymous (lit "anon")] |} in
  In (token_label Anonymous (lit "anon")) (user_tokens ep) /\ allows_anonymous ep = true.
Proof.
  intros ep.
  assert (H : In (token_label Anonymous (lit "anon")) (user_tokens ep)) by (simpl; right; left; reflexivity).
  split; [exact H|]. exact (proj1 (allows_anonymous_tokens ep) _ H).
Defined.

End DiscoveryFacts.

Module PrecheckFacts.
Import Diagnostics Precheck.
Local Open Scope char_scope.

Lemma split_first_app c l r : ~ In c l -> split_first c (l ++ c :: r) = l.
Proof.
  induction l as [|x l IH]; intros Hn; simpl.
  - rewrite Ascii.eqb_refl. reflexivity.
  - destruct (Ascii.eqb_spec c x) as [->|_]; [exfalso; apply Hn; left; reflexivity|].
    rewrite IH; [reflexivity|]. intros H. apply Hn. right. exact H.
Qed.

Lemma precheck_host_port h p rest :
  ~ In "/" h -> (p < 65536)%N ->
  (rest = [] \/ exists r, rest = "/" :: r) ->
  parse_endpoint_url (lit "opc.tcp://" ++ h ++ ":" :: show_u16 p ++ rest) = Ok h p.
Proof.
  intros Hh Hp Hr. destruct (ParseFacts.show_u16_ok p Hp) as (_ & Hch & Hparse).
  assert (Hnd : ~ In "/" (show_u16 p)) by (intros H; destruct (Hch _ H) as (_ & _ & H'); congruence).
  assert (Hnc : ~ In ":" (show_u16 p)) by (intros H; destruct (Hch _ H) as (_ & H' & _); congruence).
  unfold parse_endpoint_url. rewrite ParseFacts.strip_prefix_app. cbv iota beta.
  assert (Hs : split_first "/" (h ++ ":" :: show_u16 p ++ rest) = h ++ ":" :: show_u16 p).
  { destruct Hr as [->|[r ->]].
    - rewrite app_nil_r. apply ParseFacts.split_first_notin.
      intros H. apply in_app_or in H as [H|[H|H]]; [exact (Hh H)|discriminate|exact (Hnd H)].
    - replace (h ++ ":" :: show_u16 p ++ "/" :: r) with ((h ++ ":" :: show_u16 p) ++ "/" :: r)
        by (rewrite <- app_assoc; reflexivity).
      apply split_first_app.
      intros H. apply in_app_or in H as [H|[H|H]]; [exact (Hh H)|discriminate|exact (Hnd H)]. }
  rewrite Hs. unfold rsplitn2. rewrite ParseFacts.split_last_app by exact Hnc.
  cbv iota beta. rewrite Hparse. reflexivity.
Qed.

(** [parse_endpoint_url] accepts [opc.tcp://host:port] for any host
    without a slash (also an empty one, or one with colons) and any port
    below 65536, with or without a path after it. *)
Theorem precheck_accepts_host_port h p :
  ~ In "/" h -> (p < 65536)%N ->
  parse_endpoint_url (lit "opc.tcp://" ++ h ++ ":" :: show_u16 p) = Ok h p
  /\ forall path, parse_endpoint_url (lit "opc.tcp://" ++ h ++ ":" :: show_u16 p ++ "/" :: path) = Ok h p.
Proof.
  intros Hh Hp. split.
  - pose proof (precheck_host_port h p [] Hh Hp (or_introl eq_refl)) as H.
    rewrite app_nil_r in H. exact H.
  - intros path. apply precheck_host_port; [exact Hh|exact Hp|right; exists path; reflexivity].
Qed.

(** Without a colon (and a path), [parse_endpoint_url] rejects an empty
    host and gives any other host the default port 4840. *)
Theorem precheck_default_port h :
  ~ In "/" h -> ~ In ":" h ->
  parse_endpoint_url (lit "opc.tcp://" ++ h)
  = match h with [] => Err (lit "Host cannot be empty") | _ :: _ => Ok h 4840 end.
Proof.
  intros Hs Hc. unfold parse_endpoint_url. rewrite ParseFacts.strip_prefix_app.
  cbv iota beta. rewrite ParseFacts.split_first_notin by exact Hs.
  unfold rsplitn2. rewrite ParseFacts.split_last_none by exact Hc. reflexivity.
Qed.

(** The URL that [parse_user_input] recommends for a valid input passes
    the pre-check, which reads back the parsed host and the chosen port. *)
Theorem recommended_url_passes_precheck s p :
  Diagnostics.is_valid (Diagnostics.parse_user_input s) = true -> (p < 65536)%N ->
  parse_endpoint_url (Diagnostics.to_url (Diagnostics.parse_user_input s) p)
  = Ok (Diagnostics.host (Diagnostics.parse_user_input s)) p.
Proof.
  intros Hv Hp. destruct (ParseFacts.parse_valid_host s Hv) as (_ & _ & Hh & _).
  pose proof (precheck_host_port _ p [] Hh Hp (or_introl eq_refl)) as H.
  rewrite app_nil_r in H. exact H.
Qed.

Lemma precheck_accepts_host_port_witness :
  ~ In "/" [] /\ (4840 < 65536)%N
  /\ parse_endpoint_url (lit "opc.tcp://" ++ [] ++ ":" :: show_u16 4840) = Ok [] 4840
  /\ forall path, parse_endpoint_url (lit "opc.tcp://" ++ [] ++ ":" :: show_u16 4840 ++ "/" :: path)
                  = Ok [] 4840.
Proof.
  assert (H1 : ~ In "/" ([] : str)) by (intros []).
  assert (H2 : (4840 < 65536)%N) by reflexivity.
  split; [exact H1|]. split; [exact H2|].
  exact (precheck_accepts_host_port [] 4840 H1 H2).
Defined.

Lemma precheck_default_port_witness :
  ~ In "/" (lit "server.example.com") /\ ~ In ":" (lit "server.example.com")
  /\ parse_endpoint_url (lit "opc.tcp://" ++ lit "server.example.com")
     = Ok (lit "server.example.com") 4840.
Proof.
  assert (H1 : ~ In "/" (lit "server.example.com")) by (simpl; intuition discriminate).
  assert (H2 : ~ In ":" (lit "server.example.com")) by (simpl; intuition discriminate).
  split; [exact H1|]. split; [exact H2|].
  exact (precheck_default_port _ H1 H2).
Defined.

Lemma recommended_url_passes_precheck_witness :
  Diagnostics.is_valid (Diagnostics.parse_user_input (lit "  192.168.1.10:4841/path ")) = true
  /\ (4841 < 65536)%N
  /\ parse_endpoint_url (Diagnostics.to_url (Diagnostics.parse_user_input (lit "  192.168.1.10:4841/path ")) 4841)
     = Ok (lit "192.168.1.10") 4841.
Proof.
  assert (H1 : Diagnostics.is_valid (Diagnostics.parse_user_input (lit "  192.168.1.10:4841/path ")) = true)
    by (vm_compute; reflexivity).
  assert (H2 : (4841 < 65536)%N) by reflexivity.
  split; [exact H1|]. split; [exact H2|].
  exact (recommended_url_passes_precheck _ _ H1 H2).
Defined.

End PrecheckFacts.
